(** * snow: the glog-style logging facade of [base_log.h]

    A shallow embedding of [snow::LogMessage] and [snow::Logger] and the
    properties of the rendered log line, of the finalisation of a record
    and of the logger life cycle. *)

From Stdlib Require Import ZArith NArith Lia List Bool Ascii String.
Import ListNotations.

Open Scope string_scope.
Open Scope Z_scope.

(** ** Text helpers *)

Module Text.

(** [std::string::empty]. *)
Definition empty (s : string) : bool :=
  match s with
  | EmptyString => true
  | String _ _ => false
  end.

Fixpoint all_chars (p : ascii -> bool) (s : string) : bool :=
  match s with
  | EmptyString => true
  | String c s' => p c && all_chars p s'
  end.

Fixpoint replicate (n : nat) (c : ascii) : string :=
  match n with
  | O => EmptyString
  | S n' => String c (replicate n' c)
  end.

(** The first [n] characters of [s]. *)
Fixpoint take (n : nat) (s : string) : string :=
  match n, s with
  | O, _ => EmptyString
  | _, EmptyString => EmptyString
  | S n', String c s' => String c (take n' s')
  end.

(** [s] without its first [n] characters. *)
Fixpoint drop (n : nat) (s : string) : string :=
  match n, s with
  | O, _ => s
  | _, EmptyString => EmptyString
  | S n', String _ s' => drop n' s'
  end.

Definition is_digit (c : ascii) : bool :=
  let n := N_of_ascii c in ((48 <=? n) && (n <=? 57))%N.

(** The character of a decimal digit [d < 10]. *)
Definition digit_char (d : N) : ascii := ascii_of_N (48 + d).

(** Decimal numeral of [n], most significant digit first, no leading
    zero; the recursion is bounded by [fuel]. *)
Fixpoint decimal_fuel (fuel : nat) (n : N) : string :=
  match fuel with
  | O => EmptyString
  | S f =>
      (if (n <? 10)%N then EmptyString else decimal_fuel f (n / 10)%N)
        ++ String (digit_char (n mod 10)%N) EmptyString
  end.

(** A number of [k] bits has at most [k] decimal digits, and [0] has one. *)
Definition N_to_string (n : N) : string :=
  decimal_fuel (S (N.to_nat (N.size n))) n.

(** [operator<<] on a signed integer. *)
Definition Z_to_string (z : Z) : string :=
  if z <? 0 then String "-"%char (N_to_string (Z.abs_N z))
  else N_to_string (Z.abs_N z).

(** The value of a numeral, for checking the printer. *)
Fixpoint N_of_digits (acc : N) (s : string) : N :=
  match s with
  | EmptyString => acc
  | String c s' => N_of_digits (10 * acc + (N_of_ascii c - 48))%N s'
  end.

(** The [w] low-order decimal digits of [n], zero-padded on the left:
    what a fixed-width field of a time stamp looks like. *)
Fixpoint fixed_width (w : nat) (n : N) : string :=
  match w with
  | O => EmptyString
  | S w' => fixed_width w' (n / 10)%N ++ String (digit_char (n mod 10)%N) EmptyString
  end.

(** The conversion [%0<w>d] of [printf]: the numeral of [|z|], padded
    with zeros on the left up to [w] columns, the sign taking one. *)
Definition printf_0d (w : nat) (z : Z) : string :=
  let body := N_to_string (Z.abs_N z) in
  if z <? 0
  then String "-"%char (replicate (w - 1 - length body) "0"%char ++ body)
  else replicate (w - length body) "0"%char ++ body.

(** [c] is one of the characters of [chars]. *)
Fixpoint occurs (c : ascii) (chars : string) : bool :=
  match chars with
  | EmptyString => false
  | String d chars' => Ascii.eqb c d || occurs c chars'
  end.

(** [std::string::find_last_of]: the greatest position holding a
    character of [chars]; [None] stands for [npos].  [i] is the
    position of the first character of [s]. *)
Fixpoint find_last_of_from (chars : string) (i : nat) (s : string) : option nat :=
  match s with
  | EmptyString => None
  | String c s' =>
      match find_last_of_from chars (S i) s' with
      | Some p => Some p
      | None => if occurs c chars then Some i else None
      end
  end.

Definition find_last_of (chars : string) (s : string) : option nat :=
  find_last_of_from chars 0 s.

(** [s.substr(pos)]. *)
Definition substr (pos : nat) (s : string) : string := drop pos s.

End Text.

(** ** Severities *)

Inductive LogSeverity : Type :=
| LOG_LEVEL_INFO
| LOG_LEVEL_WARNING
| LOG_LEVEL_ERROR
| LOG_LEVEL_FATAL.

Definition LogSeverity_value (s : LogSeverity) : Z :=
  match s with
  | LOG_LEVEL_INFO => 0
  | LOG_LEVEL_WARNING => 1
  | LOG_LEVEL_ERROR => 2
  | LOG_LEVEL_FATAL => 3
  end.

Definition LogSeverity_eqb (a b : LogSeverity) : bool :=
  LogSeverity_value a =? LogSeverity_value b.

(** ** The logging back end

    [base_log.h] sits on the spdlog library, which the repository vendors
    under [third_party/]; its loggers and sinks are described here as far
    as the facade uses them. *)

Module spdlog.

(** Modelled from the spec: the declaration of
    [spdlog::level::level_enum] is not among the sources; the levels the
    facade names ([info], [warn], [err], [critical]) are ordered as the
    severities they stand for, inside the library's scale from [trace] to
    [off]. *)
Inductive level_enum : Type :=
| trace | debug | info | warn | err | critical | off.

Definition level_value (l : level_enum) : Z :=
  match l with
  | trace => 0 | debug => 1 | info => 2 | warn => 3
  | err => 4 | critical => 5 | off => 6
  end.

(** Modelled from the spec: the two sink variants, colored console and
    size-rotated file with its path, byte limit and number of backups. *)
Inductive sink_kind : Type :=
| stdout_color_sink_mt
| rotating_file_sink_mt (filename : string) (max_size max_files : N).

(** Modelled from the spec: the sinks of spdlog are not among the
    sources.  A sink is a destination with the capabilities write and
    flush: [sink_pending] holds the lines written and not yet flushed,
    [sink_durable] the flushed ones, one entry per line.  The facade sets
    the pattern of its sinks to ["%v"], the raw line.  The rotation of
    the file sink plays no part here and is left out. *)
Record sink : Type := mk_sink {
  sink_kind_of : sink_kind;
  sink_pattern : string;
  sink_pending : list string;
  sink_durable : list string
}.

Definition make_sink (k : sink_kind) : sink :=
  mk_sink k "%+" [] [].

Definition set_pattern (p : string) (s : sink) : sink :=
  mk_sink (sink_kind_of s) p (sink_pending s) (sink_durable s).

(** Modelled from the spec: a sink accepts a rendered line by writing
    it. *)
Definition sink_log (line : string) (s : sink) : sink :=
  mk_sink (sink_kind_of s) (sink_pattern s) (sink_pending s ++ [line]) (sink_durable s).

(** Modelled from the spec: flushing a sink forces the durability of
    what it has written. *)
Definition sink_flush (s : sink) : sink :=
  mk_sink (sink_kind_of s) (sink_pattern s) [] (sink_durable s ++ sink_pending s).

(** Every line the sink has accepted so far, in order. *)
Definition sink_output (s : sink) : list string :=
  sink_durable s ++ sink_pending s.



(** Modelled from the spec: a logger owns an ordered list of sinks, the
    minimum level it admits and the level from which it flushes. *)
Record logger : Type := mk_logger {
  name : string;
  sinks : list sink;
  level : level_enum;
  flush_level : level_enum
}.

(** Modelled from the spec: the default minimum is [info]; a new logger
    does not flush on its own until [flush_on] says from where. *)
Definition make_logger (n : string) (ss : list sink) : logger :=
  mk_logger n ss info off.

Definition set_level (l : level_enum) (lg : logger) : logger :=
  mk_logger (name lg) (sinks lg) l (flush_level lg).

Definition flush_on (l : level_enum) (lg : logger) : logger :=
  mk_logger (name lg) (sinks lg) (level lg) l.

(** Modelled from the spec: [flush] makes every sink flush. *)
Definition flush (lg : logger) : logger :=
  mk_logger (name lg) (map sink_flush (sinks lg)) (level lg) (flush_level lg).

(** Modelled from the spec: the two admission checks, against the
    minimum and against the flush threshold. *)
Definition should_log (lg : logger) (l : level_enum) : bool :=
  level_value (level lg) <=? level_value l.

Definition should_flush (lg : logger) (l : level_enum) : bool :=
  level_value (flush_level lg) <=? level_value l.

(** Modelled from the spec: [spdlog::logger::log] is not among the
    sources.  A record whose level meets the logger's minimum is routed
    to every sink in the order the sinks were added; after routing, a
    record whose level meets the flush threshold makes every sink flush;
    a record below the minimum is dropped. *)
Definition log (l : level_enum) (line : string) (lg : logger) : logger :=
  if should_log lg l then
    let routed :=
      mk_logger (name lg) (map (sink_log line) (sinks lg)) (level lg) (flush_level lg) in
    if should_flush lg l then flush routed else routed
  else lg.

End spdlog.

(** ** The process around the facade *)

(** [std::tm], as [localtime_r] fills it in. *)
Record tm : Type := mk_tm {
  tm_year : Z; tm_mon : Z; tm_mday : Z;
  tm_hour : Z; tm_min : Z; tm_sec : Z
}.

(** One reading of [std::chrono::system_clock]: the broken-down local time
    and the microseconds since the epoch. *)
Record clock_reading : Type := mk_clock {
  local_time : tm;
  since_epoch_us : Z
}.

(** What the facade does that costs or shows: reading the clock, hashing
    the thread identity, rendering a line, handing a line to the logger,
    and the warning of a failed file sink. *)
Inductive event : Type :=
| EvNow
| EvThreadHash
| EvRender (line : string)
| EvLog (l : spdlog.level_enum) (line : string)
| EvWarn (text : string).

Record world : Type := mk_world {
  logger_ : option spdlog.logger;   (* LogMessage::logger_ *)
  now : clock_reading;              (* what the clock returns *)
  thread_hash : N;                  (* std::hash of this thread's id *)
  file_sink_throws : string -> N -> N -> bool;
                                    (* the rotating file sink cannot be constructed
                                       with this path, size limit and file count *)
  probe : nat;                      (* state of the caller, touched by its own expressions *)
  history : list event;             (* the events so far, oldest first *)
  registry : list string;           (* the names of the loggers spdlog has registered *)
  default_logger : option string    (* the name of spdlog's default logger, if there is one *)
}.

Definition set_logger (l : option spdlog.logger) (w : world) : world :=
  mk_world l (now w) (thread_hash w) (file_sink_throws w) (probe w) (history w)
    (registry w) (default_logger w).

Definition emit (e : event) (w : world) : world :=
  mk_world (logger_ w) (now w) (thread_hash w) (file_sink_throws w) (probe w)
    (history w ++ [e]) (registry w) (default_logger w).

Definition set_probe (n : nat) (w : world) : world :=
  mk_world (logger_ w) (now w) (thread_hash w) (file_sink_throws w) n (history w)
    (registry w) (default_logger w).

Definition set_registry (names : list string) (d : option string) (w : world) : world :=
  mk_world (logger_ w) (now w) (thread_hash w) (file_sink_throws w) (probe w) (history w)
    names d.

(** A computation returns to its caller, ends the process
    ([std::abort]), leaves by an exception with its [what()], or runs
    into undefined behaviour; the world it leaves is kept in each case. *)
Inductive result (A : Type) : Type :=
| Ret (a : A) (w : world)
| Abort (w : world)
| Raised (what : string) (w : world)
| Undefined (w : world).

Arguments Ret {A} a w.
Arguments Abort {A} w.
Arguments Raised {A} what w.
Arguments Undefined {A} w.

Definition Proc (A : Type) : Type := world -> result A.

Definition ret {A : Type} (a : A) : Proc A := fun w => Ret a w.

Definition bind {A B : Type} (c : Proc A) (k : A -> Proc B) : Proc B :=
  fun w =>
    match c w with
    | Ret a w' => k a w'
    | Abort w' => Abort w'
    | Raised what w' => Raised what w'
    | Undefined w' => Undefined w'
    end.

Definition abort {A : Type} : Proc A := fun w => Abort w.

Definition raise {A : Type} (what : string) : Proc A := fun w => Raised what w.

Notation "x <- c ;; k" := (bind c (fun x => k))
  (at level 61, c at next level, right associativity).
Notation "c ;; k" := (bind c (fun _ => k))
  (at level 61, right associativity).

(** The world a computation leaves behind, whichever way it ended. *)
Definition final {A : Type} (r : result A) : world :=
  match r with
  | Ret _ w => w
  | Abort w => w
  | Raised _ w => w
  | Undefined w => w
  end.

Definition returned {A : Type} (r : result A) : bool :=
  match r with
  | Ret _ _ => true
  | Abort _ => false
  | Raised _ _ => false
  | Undefined _ => false
  end.

(** ** The global state of spdlog

    The registry of loggers and the default logger of spdlog, as the
    library keeps them; neither the sources nor the spec describe them.
    A process starts with a default logger of the empty name, which is
    registered. *)

Module spdlog_registry.

Definition registered (n : string) (w : world) : bool :=
  existsb (String.eqb n) (registry w).

Definition remove (n : string) (names : list string) : list string :=
  filter (fun m => negb (String.eqb n m)) names.

(** [spdlog::register_logger]: throws when the name is taken. *)
Definition register_logger (lg : spdlog.logger) : Proc unit :=
  fun w =>
    if registered (spdlog.name lg) w
    then Raised ("logger with name '" ++ spdlog.name lg ++ "' already exists") w
    else Ret tt (set_registry (spdlog.name lg :: registry w) (default_logger w) w).

(** [spdlog::set_default_logger]: the previous default logger leaves the
    registry, the new one is entered under its name. *)
Definition set_default_logger (lg : spdlog.logger) : Proc unit :=
  fun w =>
    let names :=
      match default_logger w with
      | Some previous => remove previous (registry w)
      | None => registry w
      end in
    Ret tt (set_registry (spdlog.name lg :: remove (spdlog.name lg) names)
              (Some (spdlog.name lg)) w).

(** [spdlog::drop_all]: the registry is emptied and the default logger
    released. *)
Definition drop_all : Proc unit :=
  fun w => Ret tt (set_registry [] None w).

(** [spdlog::warn]: a call through the default logger; with none, the
    call goes through a null pointer. *)
Definition warn (text : string) : Proc unit :=
  fun w =>
    match default_logger w with
    | Some _ => Ret tt (emit (EvWarn text) w)
    | None => Undefined w
    end.

(** The constructor of the rotating file sink; [None] when it throws
    [spdlog_ex]. *)
Definition make_rotating_file_sink (filename : string) (max_size max_files : N)
    : Proc (option spdlog.sink) :=
  fun w =>
    if file_sink_throws w filename max_size max_files
    then Ret None w
    else Ret (Some (spdlog.make_sink
                      (spdlog.rotating_file_sink_mt filename max_size max_files))) w.

End spdlog_registry.

Definition store_logger (l : option spdlog.logger) : Proc unit :=
  fun w => Ret tt (set_logger l w).

(** ** [snow::LogMessage] *)

Module LogMessage.

Record t : Type := mk {
  severity_ : LogSeverity;
  file_ : string;
  line_ : Z;
  message_ : string
}.

(** The constructor: the stream starts empty. *)
Definition new (severity : LogSeverity) (file : string) (line : Z) : t :=
  mk severity file line EmptyString.

(** [operator<<], on the text of the streamed value. *)
Definition shl (m : t) (text : string) : t :=
  mk (severity_ m) (file_ m) (line_ m) (message_ m ++ text).

(** The [switch] of [Flush], on the value of the enumeration; the
    [default] branch is not reached by the four enumerators. *)
Definition level_char (v : Z) : ascii :=
  if v =? 0 then "I"%char
  else if v =? 1 then "W"%char
  else if v =? 2 then "E"%char
  else if v =? 3 then "F"%char
  else "?"%char.

Definition spdlog_level (v : Z) : spdlog.level_enum :=
  if v =? 0 then spdlog.info
  else if v =? 1 then spdlog.warn
  else if v =? 2 then spdlog.err
  else if v =? 3 then spdlog.critical
  else spdlog.info.

(** [snprintf(time_str, sizeof(time_str), "%04d%02d%02d %02d:%02d:%02d.%06ld", ...)]
    into a buffer of 32 characters: at most 31 are kept. *)
Definition time_str (c : clock_reading) : string :=
  let t := local_time c in
  let ms := Z.rem (since_epoch_us c) 1000000 in
  Text.take 31
    (Text.printf_0d 4 (tm_year t + 1900) ++ Text.printf_0d 2 (tm_mon t + 1)
     ++ Text.printf_0d 2 (tm_mday t) ++ " "
     ++ Text.printf_0d 2 (tm_hour t) ++ ":" ++ Text.printf_0d 2 (tm_min t) ++ ":"
     ++ Text.printf_0d 2 (tm_sec t) ++ "." ++ Text.printf_0d 6 ms).

(** The file name without its directories. *)
Definition filename (file : string) : string :=
  match Text.find_last_of "/\" file with
  | Some pos => Text.substr (pos + 1) file
  | None => file
  end.

(** The line [Flush] builds in [formatted_msg]. *)
Definition formatted_msg (m : t) (c : clock_reading) (thread : N) : string :=
  String (level_char (LogSeverity_value (severity_ m)))
    (time_str c ++ " " ++ Text.N_to_string thread ++ " "
     ++ filename (file_ m) ++ ":" ++ Text.Z_to_string (line_ m) ++ "] "
     ++ message_ m).

(** [Flush]: nothing without a logger; otherwise the clock, the thread
    identity, the level, the file name, the line, and the call of the
    logger, in this order. *)
Definition Flush (m : t) : Proc unit :=
  fun w =>
    match logger_ w with
    | None => Ret tt w
    | Some lg =>
        let w1 := emit EvNow w in
        let w2 := emit EvThreadHash w1 in
        let l := spdlog_level (LogSeverity_value (severity_ m)) in
        let text := formatted_msg m (now w) (thread_hash w) in
        let w3 := emit (EvRender text) w2 in
        let w4 := emit (EvLog l text) w3 in
        Ret tt (set_logger (Some (spdlog.log l text lg)) w4)
    end.

(** The destructor, which finalises the record. *)
Definition destroy (m : t) : Proc unit :=
  (if negb (Text.empty (message_ m)) then Flush m else ret tt) ;;
  (if LogSeverity_eqb (severity_ m) LOG_LEVEL_FATAL then abort else ret tt).

End LogMessage.

(** ** [snow::Logger] *)

Module Logger.

(** [Init]: the console sink first; the file sink when a path is given,
    unless its construction throws, in which case a warning is issued
    through the default logger of spdlog and the console sink stays
    alone; then the new logger with its level and the flush threshold
    [warn] is stored in [logger_], registered with spdlog and made its
    default logger. *)
Definition Init (log_file : string) (max_file_size max_files : N)
    (level : spdlog.level_enum) : Proc unit :=
  let console_sink :=
    spdlog.set_pattern "%v" (spdlog.make_sink spdlog.stdout_color_sink_mt) in
  sinks <- (if negb (Text.empty log_file) then
              made <- spdlog_registry.make_rotating_file_sink
                        log_file max_file_size max_files ;;
              match made with
              | Some file_sink =>
                  ret [console_sink; spdlog.set_pattern "%v" file_sink]
              | None =>
                  spdlog_registry.warn "Failed to create log file: {}" ;;
                  ret [console_sink]
              end
            else ret [console_sink]) ;;
  let lg :=
    spdlog.flush_on spdlog.warn
      (spdlog.set_level level (spdlog.make_logger "snow_logger" sinks)) in
  store_logger (Some lg) ;;
  spdlog_registry.register_logger lg ;;
  spdlog_registry.set_default_logger lg.

(** [Init()] with the default arguments of the declaration. *)
Definition Init_default : Proc unit :=
  Init "" (10 * 1024 * 1024) 5 spdlog.info.

Definition SetLevel (level : spdlog.level_enum) : Proc unit :=
  fun w =>
    match logger_ w with
    | Some lg => Ret tt (set_logger (Some (spdlog.set_level level lg)) w)
    | None => Ret tt w
    end.

Definition Flush : Proc unit :=
  fun w =>
    match logger_ w with
    | Some lg => Ret tt (set_logger (Some (spdlog.flush lg)) w)
    | None => Ret tt w
    end.

Definition Shutdown : Proc unit :=
  fun w =>
    match logger_ w with
    | Some lg =>
        (store_logger (Some (spdlog.flush lg)) ;;
         spdlog_registry.drop_all ;;
         store_logger None) w
    | None => Ret tt w
    end.

End Logger.

(** ** The logging macros

    A log statement is the temporary [LogMessage], the expressions
    streamed into it, evaluated from left to right, and the destructor at
    the end of the full expression.  A streamed expression is a
    computation of the caller that yields the text to append. *)

Fixpoint stream (args : list (Proc string)) (m : LogMessage.t) : Proc LogMessage.t :=
  match args with
  | [] => ret m
  | a :: rest => text <- a ;; stream rest (LogMessage.shl m text)
  end.

Definition log_statement (severity : LogSeverity) (file : string) (line : Z)
    (args : list (Proc string)) : Proc unit :=
  m <- stream args (LogMessage.new severity file line) ;; LogMessage.destroy m.

Definition LOG_INFO := log_statement LOG_LEVEL_INFO.
Definition LOG_WARN := log_statement LOG_LEVEL_WARNING.
Definition LOG_ERR := log_statement LOG_LEVEL_ERROR.
Definition LOG_FATAL := log_statement LOG_LEVEL_FATAL.

(** The types of the second and third operand of a conditional
    expression, as far as the language looks at them. *)
Inductive operand_type : Type :=
| type_void
| type_LogMessage.

(** The rule of the language on [c ? a : b] with an operand of type
    [void]: unless one of [a] and [b] is a throw-expression, which is not
    the case here, both must have type [void]; otherwise the program is
    ill-formed. *)
Definition conditional_well_formed (second third : operand_type) : bool :=
  match second, third with
  | type_void, type_void => true
  | type_void, type_LogMessage => false
  | type_LogMessage, type_void => false
  | type_LogMessage, type_LogMessage => true
  end.

(** A conditional log statement, [None] when it is ill-formed and no
    program comes of it.  The macro gives
    [!(condition) ? (void)0 : snow::LogMessage(...) << ...]: as [<<] binds
    tighter than [?:], the second operand is [(void)0] and the third the
    record with all that is streamed into it. *)
Definition conditional_statement (condition : bool) (severity : LogSeverity)
    (file : string) (line : Z) (args : list (Proc string)) : option (Proc unit) :=
  if conditional_well_formed type_void type_LogMessage
  then Some (if negb condition then ret tt else log_statement severity file line args)
  else None.

Definition LOG_INFO_IF (condition : bool) := conditional_statement condition LOG_LEVEL_INFO.
Definition LOG_WARN_IF (condition : bool) := conditional_statement condition LOG_LEVEL_WARNING.
Definition LOG_ERR_IF (condition : bool) := conditional_statement condition LOG_LEVEL_ERROR.
Definition LOG_FATAL_IF (condition : bool) := conditional_statement condition LOG_LEVEL_FATAL.

(** A streamed literal, and a streamed expression with a side effect in
    the caller: it bumps [probe] and yields its text. *)
Definition lit (s : string) : Proc string := ret s.

Definition probing (s : string) : Proc string :=
  fun w => Ret s (set_probe (S (probe w)) w).

(** ** A sample run *)

Definition sample_clock : clock_reading :=
  mk_clock (mk_tm 123 11 24 9 30 45) 1703410245123456.

(** A process at its start: no logger of the facade, and the default
    logger of spdlog alone in the registry; a file under [/proc/] cannot
    be created, nor a file sink with a size limit of zero. *)
Definition world0 : world :=
  mk_world None sample_clock 12345
    (fun filename max_size _ =>
       (max_size =? 0)%N || String.eqb filename "/proc/denied.log")
    0 [] [""] (Some "").

Definition run {A : Type} (c : Proc A) (w : world) : world := final (c w).

(** ** Observations on a world *)

(** The lines each sink of the active logger has accepted, sink by sink. *)
Definition outputs (w : world) : list (list string) :=
  match logger_ w with
  | Some lg => map spdlog.sink_output (spdlog.sinks lg)
  | None => []
  end.

Definition nothing_pending (s : spdlog.sink) : bool :=
  match spdlog.sink_pending s with
  | [] => true
  | _ :: _ => false
  end.

(** No sink of the active logger holds a line it has not flushed. *)
Definition sinks_flushed (w : world) : bool :=
  match logger_ w with
  | Some lg => forallb nothing_pending (spdlog.sinks lg)
  | None => true
  end.



(** The level a record of the given severity is logged at. *)
Definition level_of (s : LogSeverity) : spdlog.level_enum :=
  LogMessage.spdlog_level (LogSeverity_value s).

(** The worlds of the examples. *)
Definition world_with_file : world :=
  run (Logger.Init "app.log" 1024 3 spdlog.info ;;
       LOG_INFO "main.cpp" 10 [lit "tick"]) world0.

Definition world_errors_only : world :=
  run (Logger.Init "" 1024 3 spdlog.err) world0.

(** ** The logger life cycle *)

(** The logger [Init] builds, as a function of its arguments and of
    whether the file sink can be created. *)
Definition fresh_logger (log_file : string) (max_file_size max_files : N)
    (level : spdlog.level_enum) (file_ok : bool) : spdlog.logger :=
  spdlog.mk_logger "snow_logger"
    (spdlog.mk_sink spdlog.stdout_color_sink_mt "%v" [] []
     :: (if negb (Text.empty log_file) && file_ok
         then [spdlog.mk_sink
                 (spdlog.rotating_file_sink_mt log_file max_file_size max_files)
                 "%v" [] []]
         else []))
    level spdlog.warn.

Definition can_create (log_file : string) (max_file_size max_files : N) (w : world)
    : bool :=
  negb (file_sink_throws w log_file max_file_size max_files).

(** ** The base name of the source file *)

Definition is_separator (c : ascii) : bool := Text.occurs c "/\".

Definition no_separator (s : string) : bool :=
  Text.all_chars (fun c => negb (is_separator c)) s.

(** ** Regular expressions *)

Module Regex.

Inductive t : Type :=
| Void
| Eps
| Class (p : ascii -> bool)
| Seq (r1 r2 : t)
| Alt (r1 r2 : t)
| Star (r : t).

Fixpoint nullable (r : t) : bool :=
match r with
| Void => false
| Eps => true
| Class _ => false
| Seq r1 r2 => nullable r1 && nullable r2
| Alt r1 r2 => nullable r1 || nullable r2
| Star _ => true
end.

(** The strings a regular expression denotes. *)
Inductive denotes : t -> string -> Prop :=
| denotes_eps : denotes Eps EmptyString
| denotes_class (p : ascii -> bool) (c : ascii) :
    p c = true -> denotes (Class p) (String c EmptyString)
| denotes_seq (r1 r2 : t) (s1 s2 : string) :
    denotes r1 s1 -> denotes r2 s2 -> denotes (Seq r1 r2) (s1 ++ s2)
| denotes_alt_l (r1 r2 : t) (s : string) :
    denotes r1 s -> denotes (Alt r1 r2) s
| denotes_alt_r (r1 r2 : t) (s : string) :
    denotes r2 s -> denotes (Alt r1 r2) s
| denotes_star_nil (r : t) : denotes (Star r) EmptyString
| denotes_star_more (r : t) (s1 s2 : string) :
    denotes r s1 -> denotes (Star r) s2 -> denotes (Star r) (s1 ++ s2).

(** The derivative of [r] by the character [c]. *)
Fixpoint deriv (c : ascii) (r : t) : t :=
match r with
| Void => Void
| Eps => Void
| Class p => if p c then Eps else Void
| Seq r1 r2 =>
    if nullable r1
    then Alt (Seq (deriv c r1) r2) (deriv c r2)
    else Seq (deriv c r1) r2
| Alt r1 r2 => Alt (deriv c r1) (deriv c r2)
| Star r1 => Seq (deriv c r1) (Star r1)
end.

(** [r] matches the whole of [s]: the decision procedure for [denotes]. *)
Fixpoint matches (r : t) (s : string) : bool :=
match s with
| EmptyString => nullable r
| String c s' => matches (deriv c r) s'
end.

Definition char (c : ascii) : t := Class (Ascii.eqb c).

Definition plus (r : t) : t := Seq r (Star r).

Fixpoint times (n : nat) (r : t) : t :=
match n with
| O => Eps
| S n' => Seq r (times n' r)
end.

Fixpoint seq_all (rs : list t) : t :=
match rs with
| [] => Eps
| r :: rs' => Seq r (seq_all rs')
end.

End Regex.

(** The character classes of the layout: [[IWEF]], [\d], [[^/\\]] and
    [.], which matches every character but a line break. *)
Definition is_level_char (c : ascii) : bool := Text.occurs c "IWEF".

Definition is_line_break (c : ascii) : bool :=
  Ascii.eqb c "010"%char || Ascii.eqb c "013"%char.

(** [^[IWEF]\d{8} \d{2}:\d{2}:\d{2}\.\d{6} \d+ [^/\\]+:\d+\] .*$] *)
Definition layout_regex : Regex.t :=
  let d := Regex.Class Text.is_digit in
  Regex.seq_all
    [ Regex.Class is_level_char; Regex.times 8 d; Regex.char " ";
      Regex.times 2 d; Regex.char ":"; Regex.times 2 d; Regex.char ":";
      Regex.times 2 d; Regex.char "."; Regex.times 6 d; Regex.char " ";
      Regex.plus d; Regex.char " ";
      Regex.plus (Regex.Class (fun c => negb (is_separator c))); Regex.char ":";
      Regex.plus d; Regex.char "]"; Regex.char " ";
      Regex.Star (Regex.Class (fun c => negb (is_line_break c))) ].

(** ** Decimal numerals *)

Definition pow10 (w : nat) : N := (10 ^ N.of_nat w)%N.

(** ** The rendered line *)

(** The level character of a severity: I, W, E, F. *)
Definition severity_letter (s : LogSeverity) : ascii :=
  match s with
  | LOG_LEVEL_INFO => "I"%char
  | LOG_LEVEL_WARNING => "W"%char
  | LOG_LEVEL_ERROR => "E"%char
  | LOG_LEVEL_FATAL => "F"%char
  end.

(** A clock reading that is a calendar time of the years 0 to 9999, not
    before the epoch. *)
Definition valid_clock (c : clock_reading) : bool :=
  let t := local_time c in
  (0 <=? tm_year t + 1900) && (tm_year t + 1900 <=? 9999)
  && (0 <=? tm_mon t) && (tm_mon t <=? 11)
  && (1 <=? tm_mday t) && (tm_mday t <=? 31)
  && (0 <=? tm_hour t) && (tm_hour t <=? 23)
  && (0 <=? tm_min t) && (tm_min t <=? 59)
  && (0 <=? tm_sec t) && (tm_sec t <=? 60)
  && (0 <=? since_epoch_us c).

Definition single_line (s : string) : bool :=
  Text.all_chars (fun c => negb (is_line_break c)) s.

(** The layout
    [<LevelChar><YYYYMMDD> <HH:MM:SS.ffffff> <ThreadHash> <BaseFile>:<Line>] <Message>],
    field by field. *)
Definition layout (sev : LogSeverity) (c : clock_reading) (thread : N)
    (base_file : string) (line : Z) (message : string) : string :=
  let t := local_time c in
  String (severity_letter sev)
    (Text.fixed_width 4 (Z.to_N (tm_year t + 1900))
     ++ Text.fixed_width 2 (Z.to_N (tm_mon t + 1))
     ++ Text.fixed_width 2 (Z.to_N (tm_mday t))
     ++ " "
     ++ Text.fixed_width 2 (Z.to_N (tm_hour t)) ++ ":"
     ++ Text.fixed_width 2 (Z.to_N (tm_min t)) ++ ":"
     ++ Text.fixed_width 2 (Z.to_N (tm_sec t)) ++ "."
     ++ Text.fixed_width 6 (Z.to_N (Z.rem (since_epoch_us c) 1000000))
     ++ " " ++ Text.N_to_string thread
     ++ " " ++ base_file ++ ":" ++ Text.Z_to_string line
     ++ "] " ++ message).

(** ** Sequences of statements *)

(** The texts of a statement, streamed one after the other. *)
Fixpoint join (texts : list string) : string :=
  match texts with
  | [] => EmptyString
  | t :: rest => t ++ join rest
  end.

(** The records of consecutive log statements, finalised in order. *)
Fixpoint finalize_all (ms : list LogMessage.t) : Proc unit :=
  match ms with
  | [] => ret tt
  | m :: rest => LogMessage.destroy m ;; finalize_all rest
  end.

Definition is_fatal (m : LogMessage.t) : bool :=
  LogSeverity_eqb (LogMessage.severity_ m) LOG_LEVEL_FATAL.

(** The record has text and its level meets the minimum of the logger. *)
Definition admitted (lg : spdlog.logger) (m : LogMessage.t) : bool :=
  negb (Text.empty (LogMessage.message_ m))
  && spdlog.should_log lg (level_of (LogMessage.severity_ m)).



(** ** The example server: [RobotState] and its handlers

    [example_usage.cpp] keeps a robot state behind two HTTP handlers and
    logs through the facade.  Its numbers are C++ [double]s, on which it
    does no arithmetic: they are kept abstract.  JSON values are those of
    the nlohmann library, which, like the HTTP library, is not among the
    sources. *)

Module RobotServer.

(** A computation that may throw a [std::exception] with its [what()]. *)
Inductive exn (A : Type) : Type :=
| Val (a : A)
| Throw (what : string).

Arguments Val {A} a.
Arguments Throw {A} what.

(** Well-formed UTF-8, byte by byte: the states say what may follow. *)
Inductive utf8_state : Type :=
| utf8_start
| utf8_tail1 | utf8_tail2 | utf8_tail3
| utf8_after_E0 | utf8_after_ED | utf8_after_F0 | utf8_after_F4
| utf8_reject.

Definition between (lo hi b : N) : bool := ((lo <=? b) && (b <=? hi))%N.

Definition utf8_step (s : utf8_state) (b : N) : utf8_state :=
  match s with
  | utf8_start =>
      if between 0 127 b then utf8_start
      else if between 194 223 b then utf8_tail1
      else if (b =? 224)%N then utf8_after_E0
      else if between 225 236 b || between 238 239 b then utf8_tail2
      else if (b =? 237)%N then utf8_after_ED
      else if (b =? 240)%N then utf8_after_F0
      else if between 241 243 b then utf8_tail3
      else if (b =? 244)%N then utf8_after_F4
      else utf8_reject
  | utf8_tail1 => if between 128 191 b then utf8_start else utf8_reject
  | utf8_tail2 => if between 128 191 b then utf8_tail1 else utf8_reject
  | utf8_tail3 => if between 128 191 b then utf8_tail2 else utf8_reject
  | utf8_after_E0 => if between 160 191 b then utf8_tail1 else utf8_reject
  | utf8_after_ED => if between 128 159 b then utf8_tail1 else utf8_reject
  | utf8_after_F0 => if between 144 191 b then utf8_tail2 else utf8_reject
  | utf8_after_F4 => if between 128 143 b then utf8_tail2 else utf8_reject
  | utf8_reject => utf8_reject
  end.

Fixpoint utf8_run (s : utf8_state) (text : string) : utf8_state :=
  match text with
  | EmptyString => s
  | String c rest => utf8_run (utf8_step s (N_of_ascii c)) rest
  end.

Definition valid_utf8 (text : string) : bool :=
  match utf8_run utf8_start text with
  | utf8_start => true
  | _ => false
  end.

Section Robot.

Variable double : Type.

#[local] Set Warnings "-register-all".

Inductive json : Type :=
| Jnull
| Jbool (b : bool)
| Jinteger (z : Z)
| Jfloat (d : double)
| Jstring (s : string)
| Jarray (items : list json)
| Jobject (members : list (string * json)).

#[local] Set Warnings "register-all".

(** What the example needs of its libraries: the conversion of a JSON
    integer to [double], the text of a [double] on a stream,
    [json::parse], the text [json::dump] gives for a value it can write,
    the message of the type error the library throws on a value of the
    wrong kind, and the message of the one [json::dump] throws on a value
    it cannot write. *)
Record library : Type := mk_library {
  double_of_Z : Z -> double;
  show_double : double -> string;
  parse : string -> exn json;
  dump : json -> string;
  type_error : json -> string;
  dump_error : json -> string
}.

Variable lib : library.

(** [json::dump] can write a value when all its strings, member names
    included, are well-formed UTF-8; on any other value it throws. *)
Fixpoint dumpable (j : json) : bool :=
  match j with
  | Jstring s => valid_utf8 s
  | Jarray items => forallb dumpable items
  | Jobject members =>
      forallb (fun member : string * json =>
                 let (k, v) := member in valid_utf8 k && dumpable v) members
  | _ => true
  end.

(** [j.dump()]. *)
Definition dump_checked (j : json) : exn string :=
  if dumpable j then Val (dump lib j) else Throw (dump_error lib j).

Fixpoint lookup (key : string) (members : list (string * json)) : option json :=
  match members with
  | [] => None
  | (k, v) :: rest => if String.eqb key k then Some v else lookup key rest
  end.

(** [j[key]] on a [json] that may be changed: a missing member is
    created as [null], [null] itself becomes an object, any other kind
    throws. *)
Definition at_key (key : string) (j : json) : exn json :=
  match j with
  | Jobject members =>
      match lookup key members with
      | Some v => Val v
      | None => Val Jnull
      end
  | Jnull => Val Jnull
  | _ => Throw (type_error lib j)
  end.

(** [j[i]] on a [json] that may be changed: an array is filled up with
    [null] as far as [i], [null] itself becomes an array, any other kind
    throws. *)
Definition at_index (i : nat) (j : json) : exn json :=
  match j with
  | Jarray items => Val (nth i items Jnull)
  | Jnull => Val Jnull
  | _ => Throw (type_error lib j)
  end.

(** The conversions to [double] and to [std::string]. *)
Definition to_double (j : json) : exn double :=
  match j with
  | Jfloat d => Val d
  | Jinteger z => Val (double_of_Z lib z)
  | _ => Throw (type_error lib j)
  end.

Definition to_string (j : json) : exn string :=
  match j with
  | Jstring s => Val s
  | _ => Throw (type_error lib j)
  end.

Definition exn_bind {A B : Type} (c : exn A) (k : A -> exn B) : exn B :=
  match c with
  | Val a => k a
  | Throw what => Throw what
  end.

Record Vector3d : Type := mk_Vector3d { x : double; y : double; z : double }.

Record RobotState : Type := mk_RobotState {
  position : Vector3d;
  velocity : Vector3d;
  timestamp : double
}.

Definition array_of (v : Vector3d) : json :=
  Jarray [Jfloat (x v); Jfloat (y v); Jfloat (z v)].

Definition to_json (s : RobotState) : json :=
  Jobject [("position", array_of (position s));
           ("velocity", array_of (velocity s));
           ("timestamp", Jfloat (timestamp s))].

(** [Vector3d(a[0], a[1], a[2])]. *)
Definition vector_of (a : json) : exn Vector3d :=
  exn_bind (exn_bind (at_index 0 a) to_double) (fun x0 =>
  exn_bind (exn_bind (at_index 1 a) to_double) (fun y0 =>
  exn_bind (exn_bind (at_index 2 a) to_double) (fun z0 =>
  Val (mk_Vector3d x0 y0 z0)))).

(** [j[key]] on a [const json]: defined for an object that has the
    member. *)
Definition member (key : string) (j : json) : option json :=
  match j with
  | Jobject members => lookup key members
  | _ => None
  end.

Definition defined {A : Type} (c : exn A) : option A :=
  match c with
  | Val a => Some a
  | Throw _ => None
  end.

(** [RobotState::from_json]; [None] where the library throws or gives
    no meaning to the access. *)
Definition from_json (j : json) : option RobotState :=
  match member "position" j, member "velocity" j, member "timestamp" j with
  | Some pos, Some vel, Some t =>
      match defined (vector_of pos), defined (vector_of vel), defined (to_double t) with
      | Some p, Some v, Some ts => Some (mk_RobotState p v ts)
      | _, _, _ => None
      end
  | _, _, _ => None
  end.

(** [httplib::Response], as far as the handlers touch it. *)
Record Response : Type := mk_Response {
  status : Z;
  body : string;
  content_type : string
}.

Definition set_content (b t : string) (res : Response) : Response :=
  mk_Response (status res) b t.

Definition set_status (s : Z) (res : Response) : Response :=
  mk_Response s (body res) (content_type res).

(** The handler of [GET /robot/state]. *)
Definition get_state (current_state : RobotState) (res : Response) : exn Response :=
  exn_bind (dump_checked (to_json current_state)) (fun text =>
  Val (set_content text "application/json" res)).

(** [std::string command = j["command"]] and
    [Vector3d(target[0], target[1], target[2])] for [target = j["target"]]. *)
Definition command_of (j : json) : exn string :=
  exn_bind (at_key "command" j) to_string.

Definition target_of (j : json) : exn Vector3d :=
  exn_bind (at_key "target" j) vector_of.

(** The replies of the command handler. *)
Definition reply_ok : json := Jobject [("status", Jstring "ok")].

Definition reply_error (what : string) : json := Jobject [("error", Jstring what)].

(** The body of the [try] block of [POST /robot/command], up to the
    point where it throws: the state and the lines logged so far are
    kept, as the handler changes the state in place. *)
Definition try_command (file : string) (current_state : RobotState)
    (request_body : string) : Proc (RobotState * exn unit) :=
  match exn_bind (parse lib request_body) (fun j =>
        exn_bind (command_of j) (fun c => Val (j, c))) with
  | Throw what => ret (current_state, Throw what)
  | Val (j, command) =>
      LOG_INFO file 64 [lit "Received command: "; lit command] ;;
      if String.eqb command "move" then
        match target_of j with
        | Throw what => ret (current_state, Throw what)
        | Val target =>
            let moved :=
              mk_RobotState target (velocity current_state) (timestamp current_state) in
            LOG_INFO file 70
              [lit "Move to position: ("; lit (show_double lib (x target)); lit ", ";
               lit (show_double lib (y target)); lit ", ";
               lit (show_double lib (z target)); lit ")"] ;;
            ret (moved, Val tt)
        end
      else ret (current_state, Val tt)
  end.

(** The [catch] block of [POST /robot/command]; the exception of a
    failing [dump] leaves the handler. *)
Definition catch_block (file : string) (state : RobotState) (what : string)
    (res : Response) : Proc (RobotState * Response) :=
  LOG_ERR file 78 [lit "Failed to process command: "; lit what] ;;
  match dump_checked (reply_error what) with
  | Val text => ret (state, set_content text "application/json" (set_status 400 res))
  | Throw what' => raise what'
  end.

(** The handler of [POST /robot/command]. *)
Definition post_command (file : string) (current_state : RobotState)
    (request_body : string) (res : Response) : Proc (RobotState * Response) :=
  outcome <- try_command file current_state request_body ;;
  match outcome with
  | (state, Val _) =>
      match dump_checked reply_ok with
      | Val text => ret (state, set_content text "application/json" res)
      | Throw what => catch_block file state what res
      end
  | (state, Throw what) => catch_block file state what res
  end.

(** The records the three log statements of the command handler come
    to. *)
Definition received (file command : string) : LogMessage.t :=
  LogMessage.mk LOG_LEVEL_INFO file 64 ("Received command: " ++ command).

Definition moved_to (file : string) (target : Vector3d) : LogMessage.t :=
  LogMessage.mk LOG_LEVEL_INFO file 70
    ("Move to position: (" ++ show_double lib (x target) ++ ", "
     ++ show_double lib (y target) ++ ", " ++ show_double lib (z target) ++ ")").

Definition failed (file what : string) : LogMessage.t :=
  LogMessage.mk LOG_LEVEL_ERROR file 78 ("Failed to process command: " ++ what).

End Robot.

Arguments Jnull {double}.
Arguments Jbool {double} b.
Arguments Jinteger {double} z.
Arguments Jfloat {double} d.
Arguments Jstring {double} s.
Arguments Jarray {double} items.
Arguments Jobject {double} members.
Arguments mk_Vector3d {double} x y z.
Arguments mk_RobotState {double} position velocity timestamp.
Arguments x {double} v.
Arguments y {double} v.
Arguments z {double} v.
Arguments position {double} r.
Arguments velocity {double} r.
Arguments timestamp {double} r.
Arguments to_json {double} s.
Arguments from_json {double} lib j.
Arguments get_state {double} lib current_state res.
Arguments try_command {double} lib file current_state request_body.
Arguments post_command {double} lib file current_state request_body res.
Arguments vector_of {double} lib a.
Arguments at_key {double} lib key j.
Arguments at_index {double} lib i j.
Arguments to_double {double} lib j.
Arguments to_string {double} lib j.
Arguments lookup {double} key members.
Arguments member {double} key j.
Arguments array_of {double} v.
Arguments command_of {double} lib j.
Arguments target_of {double} lib j.
Arguments reply_ok {double}.
Arguments reply_error {double} what.
Arguments moved_to {double} lib file target.
Arguments double_of_Z {double} l.
Arguments show_double {double} l.
Arguments parse {double} l.
Arguments dump {double} l.
Arguments type_error {double} l.
Arguments dump_error {double} l.
Arguments dumpable {double} j.
Arguments dump_checked {double} lib j.
Arguments catch_block {double} lib file state what res.

(** A stand-in for the libraries, to run the handlers on: numbers are
    integers, and the parser knows two request bodies; on any other it
    throws, and shows what it read in the message, as the library does. *)
Definition sample_library : library Z :=
  mk_library Z (fun n => n) Text.Z_to_string
    (fun request =>
       if String.eqb request "move to 1 2 3"
       then Val (Jobject [("command", Jstring "move");
                          ("target", Jarray [Jinteger 1; Jinteger 2; Jinteger 3])])
       else if String.eqb request "stop"
       then Val (Jobject [("command", Jstring "stop")])
       else Throw ("parse error; last read: '" ++ request ++ "'"))
    (fun j => match j with
              | Jobject (("status", _) :: _) => "ok"
              | Jobject (("error", Jstring what) :: _) => what
              | _ => "json"
              end)
    (fun _ => "type error")
    (fun _ => "invalid UTF-8 byte").

Definition sample_state : RobotState Z :=
  mk_RobotState (mk_Vector3d 0 0 0) (mk_Vector3d 0 0 0) 0.

Definition sample_response : Response := mk_Response 200 "" "".

End RobotServer.

(** ** Basic facts *)

Lemma text_nonempty (s : string) : s <> EmptyString -> Text.empty s = false.
Proof.
  destruct s; simpl; intro H; [ now elim H | reflexivity ].
Qed.

(** What the destructor does to a record without text. *)
Lemma destroy_empty (sev : LogSeverity) (file : string) (line : Z) (w : world) :
  LogMessage.destroy (LogMessage.mk sev file line EmptyString) w
  = if LogSeverity_eqb sev LOG_LEVEL_FATAL then Abort w else Ret tt w.
Proof.
  unfold LogMessage.destroy, bind; simpl.
  destruct (LogSeverity_eqb sev LOG_LEVEL_FATAL); reflexivity.
Qed.

(** What the destructor does while no logger is installed. *)
Lemma destroy_uninitialized (m : LogMessage.t) (w : world) :
  logger_ w = None ->
  LogMessage.destroy m w
  = if LogSeverity_eqb (LogMessage.severity_ m) LOG_LEVEL_FATAL then Abort w else Ret tt w.
Proof.
  intro Hnone.
  unfold LogMessage.destroy, bind, LogMessage.Flush.
  destruct (negb (Text.empty (LogMessage.message_ m))); simpl;
    rewrite ?Hnone;
    destruct (LogSeverity_eqb (LogMessage.severity_ m) LOG_LEVEL_FATAL); reflexivity.
Qed.

(** What the destructor does to a record with text under an active
    logger: the line is rendered and handed to the logger, whatever the
    logger's minimum. *)
Lemma destroy_active (m : LogMessage.t) (w : world) (lg : spdlog.logger) :
  logger_ w = Some lg ->
  LogMessage.message_ m <> EmptyString ->
  let l := level_of (LogMessage.severity_ m) in
  let text := LogMessage.formatted_msg m (now w) (thread_hash w) in
  let w' :=
    mk_world (Some (spdlog.log l text lg)) (now w) (thread_hash w) (file_sink_throws w)
      (probe w) (history w ++ [EvNow; EvThreadHash; EvRender text; EvLog l text])
      (registry w) (default_logger w) in
  LogMessage.destroy m w
  = if LogSeverity_eqb (LogMessage.severity_ m) LOG_LEVEL_FATAL then Abort w' else Ret tt w'.
Proof.
  intros Hlg Hmsg l text w'.
  unfold LogMessage.destroy, bind, LogMessage.Flush.
  rewrite (text_nonempty _ Hmsg); simpl. rewrite Hlg.
  assert (Hw : set_logger (Some (spdlog.log l text lg))
                 (emit (EvLog l text) (emit (EvRender text) (emit EvThreadHash (emit EvNow w))))
               = w').
  { unfold w', set_logger, emit; simpl. f_equal.
    repeat rewrite <- app_assoc. reflexivity. }
  fold (level_of (LogMessage.severity_ m)). fold l. fold text. rewrite Hw.
  destruct (LogSeverity_eqb (LogMessage.severity_ m) LOG_LEVEL_FATAL); reflexivity.
Qed.

Lemma log_outputs (l : spdlog.level_enum) (line : string) (lg : spdlog.logger) :
  map spdlog.sink_output (spdlog.sinks (spdlog.log l line lg))
  = map (fun s => spdlog.sink_output s ++ (if spdlog.should_log lg l then [line] else []))%list
      (spdlog.sinks lg).
Proof.
  unfold spdlog.log.
  destruct (spdlog.should_log lg l).
  - destruct (spdlog.should_flush lg l); simpl; rewrite ?map_map;
      apply map_ext; intro s; unfold spdlog.sink_output; simpl;
      rewrite ?app_nil_r, ?app_assoc; reflexivity.
  - apply map_ext; intro s. now rewrite app_nil_r.
Qed.



(** ** Finalisation of a record *)

(** C4: a record whose buffer is empty at finalisation produces nothing,
    for every severity and source location: the world it leaves is the
    world it found, so no clock is read, no line is rendered, nothing is
    handed to the logger and no sink receives a line; the same holds of a
    log statement that streams nothing. *)
Theorem empty_record_produces_nothing (sev : LogSeverity) (file : string) (line : Z)
    (w : world) :
  final (LogMessage.destroy (LogMessage.mk sev file line EmptyString) w) = w
  /\ final (log_statement sev file line [] w) = w
  /\ history (final (log_statement sev file line [] w)) = history w
  /\ outputs (final (log_statement sev file line [] w)) = outputs w.
Proof.
  assert (H : final (LogMessage.destroy (LogMessage.mk sev file line EmptyString) w) = w).
  { rewrite destroy_empty.
    destruct (LogSeverity_eqb sev LOG_LEVEL_FATAL); reflexivity. }
  assert (H' : final (log_statement sev file line [] w) = w) by exact H.
  repeat split; try assumption; now rewrite H'.
Qed.

(** C10: destroying a FATAL record ends the process in every case; when
    no logger is installed or the record has no text, it does so without
    changing anything, hence without an output line. *)
Theorem fatal_always_aborts (file : string) (line : Z) (msg : string) (w : world) :
  exists w',
    LogMessage.destroy (LogMessage.mk LOG_LEVEL_FATAL file line msg) w = Abort w'
    /\ (logger_ w = None \/ msg = EmptyString -> w' = w /\ outputs w' = outputs w).
Proof.
  destruct (logger_ w) as [lg|] eqn:Hlg.
  - destruct msg as [|c msg].
    + exists w. rewrite destroy_empty. simpl. split; [ reflexivity | now intros _ ].
    + eexists. rewrite (destroy_active _ w lg Hlg) by discriminate. simpl.
      split; [ reflexivity | ]. intros [H | H]; discriminate H.
  - exists w. rewrite destroy_uninitialized by assumption. simpl.
    split; [ reflexivity | now intros _ ].
Qed.

Lemma fatal_always_aborts_witness :
  exists w',
    LogMessage.destroy (LogMessage.mk LOG_LEVEL_FATAL "main.cpp" 7 "boom") world0 = Abort w'
    /\ (logger_ world0 = None \/ "boom" = EmptyString -> w' = world0 /\ outputs w' = outputs world0).
Proof.
  exact (fatal_always_aborts "main.cpp" 7 "boom" world0).
Defined.

(** C3, as the code has it: while no logger is installed, a log call of
    severity INFO, WARNING or ERROR returns and leaves the world as it
    was, and a FATAL one changes nothing either but ends the process;
    [Shutdown] leaves no logger installed. *)
Theorem uninitialized_log_is_dropped (sev : LogSeverity) (file : string) (line : Z)
    (msg : string) (w : world) :
  logger_ w = None ->
  (sev <> LOG_LEVEL_FATAL ->
     LogMessage.destroy (LogMessage.mk sev file line msg) w = Ret tt w)
  /\ (sev = LOG_LEVEL_FATAL ->
     LogMessage.destroy (LogMessage.mk sev file line msg) w = Abort w)
  /\ logger_ (run Logger.Shutdown w) = None.
Proof.
  intro Hnone. rewrite (destroy_uninitialized _ w Hnone). simpl.
  repeat split.
  - intro Hsev. destruct sev; try reflexivity. now elim Hsev.
  - intro Hsev. now subst sev.
  - unfold run, Logger.Shutdown. now rewrite Hnone.
Qed.

Lemma uninitialized_log_is_dropped_witness :
  (LOG_LEVEL_ERROR <> LOG_LEVEL_FATAL ->
     LogMessage.destroy (LogMessage.mk LOG_LEVEL_ERROR "main.cpp" 7 "lost") world0
     = Ret tt world0)
  /\ (LOG_LEVEL_ERROR = LOG_LEVEL_FATAL ->
     LogMessage.destroy (LogMessage.mk LOG_LEVEL_ERROR "main.cpp" 7 "lost") world0
     = Abort world0)
  /\ logger_ (run Logger.Shutdown world0) = None.
Proof.
  apply (uninitialized_log_is_dropped LOG_LEVEL_ERROR "main.cpp" 7 "lost" world0).
  reflexivity.
Defined.

(** C3, as stated, fails for FATAL: before any [Init], a FATAL call does
    not return to its caller. *)
Lemma uninitialized_fatal_is_not_a_noop :
  logger_ world0 = None
  /\ LOG_FATAL "main.cpp" 7 [lit "boom"] world0 = Abort world0
  /\ LOG_FATAL "main.cpp" 7 [lit "boom"] world0 <> Ret tt world0.
Proof.
  repeat split; [ discriminate ].
Qed.

(** After [Shutdown] no logger is installed, whatever was before. *)
Lemma Shutdown_uninitializes (w : world) :
  exists w', Logger.Shutdown w = Ret tt w' /\ logger_ w' = None.
Proof.
  unfold Logger.Shutdown.
  destruct (logger_ w) eqn:H; eexists; split; try reflexivity. exact H.
Qed.




(** ** Admission by the logger's minimum *)

Lemma outputs_after_destroy (m : LogMessage.t) (w : world) (lg : spdlog.logger) :
  logger_ w = Some lg ->
  LogMessage.message_ m <> EmptyString ->
  outputs (final (LogMessage.destroy m w))
  = map (fun o =>
           o ++ (if spdlog.level_value (spdlog.level lg)
                      <=? spdlog.level_value (level_of (LogMessage.severity_ m))
                 then [LogMessage.formatted_msg m (now w) (thread_hash w)] else []))%list
      (outputs w).
Proof.
  intros Hlg Hmsg.
  rewrite (destroy_active _ w lg Hlg Hmsg).
  assert (H : forall w1 : world,
             final (if LogSeverity_eqb (LogMessage.severity_ m) LOG_LEVEL_FATAL
                    then Abort w1 else @Ret unit tt w1) = w1).
  { intro w1. now destruct (LogSeverity_eqb _ _). }
  rewrite H. unfold outputs at 1; simpl. rewrite log_outputs.
  unfold outputs. rewrite Hlg, map_map. reflexivity.
Qed.

Lemma SetLevel_active (l : spdlog.level_enum) (w : world) (lg : spdlog.logger) :
  logger_ w = Some lg ->
  Logger.SetLevel l w = Ret tt (set_logger (Some (spdlog.set_level l lg)) w).
Proof.
  intro Hlg. unfold Logger.SetLevel. now rewrite Hlg.
Qed.

(** C5: under an active logger, after [SetLevel(err)] a WARNING record
    with text leaves the output of every sink as it was and an ERROR
    record with text appends its line to the output of every sink; in
    general a record with text is appended to every sink exactly when the
    level of its severity is at least the logger's minimum. *)
Theorem SetLevel_admission (w : world) (lg : spdlog.logger) (file : string) (line : Z)
    (msg : string) :
  logger_ w = Some lg ->
  msg <> EmptyString ->
  let w1 := run (Logger.SetLevel spdlog.err) w in
  outputs (run (LogMessage.destroy (LogMessage.mk LOG_LEVEL_WARNING file line msg)) w1)
  = outputs w
  /\ outputs (run (LogMessage.destroy (LogMessage.mk LOG_LEVEL_ERROR file line msg)) w1)
     = map (fun o =>
              o ++ [LogMessage.formatted_msg (LogMessage.mk LOG_LEVEL_ERROR file line msg)
                      (now w) (thread_hash w)])%list
         (outputs w)
  /\ (forall sev : LogSeverity,
        outputs (run (LogMessage.destroy (LogMessage.mk sev file line msg)) w)
        = map (fun o =>
                 o ++ (if spdlog.level_value (spdlog.level lg)
                            <=? spdlog.level_value (level_of sev)
                       then [LogMessage.formatted_msg (LogMessage.mk sev file line msg)
                               (now w) (thread_hash w)]
                       else []))%list
            (outputs w)).
Proof.
  intros Hlg Hmsg w1.
  assert (Hw1 : logger_ w1 = Some (spdlog.set_level spdlog.err lg)).
  { unfold w1, run. now rewrite (SetLevel_active _ w lg Hlg). }
  assert (Hout : outputs w1 = outputs w).
  { unfold outputs. now rewrite Hw1, Hlg. }
  assert (Hnow : now w1 = now w /\ thread_hash w1 = thread_hash w).
  { unfold w1, run. now rewrite (SetLevel_active _ w lg Hlg). }
  destruct Hnow as [Hnow Hth].
  repeat split.
  - unfold run. rewrite (outputs_after_destroy _ w1 _ Hw1) by exact Hmsg.
    simpl. rewrite Hout. rewrite <- (map_id (outputs w)) at 2.
    apply map_ext. intro o. apply app_nil_r.
  - unfold run. rewrite (outputs_after_destroy _ w1 _ Hw1) by exact Hmsg.
    simpl. now rewrite Hout, Hnow, Hth.
  - intro sev. unfold run.
    now rewrite (outputs_after_destroy _ w lg Hlg) by exact Hmsg.
Qed.

Lemma SetLevel_admission_witness :
  outputs (run (Logger.SetLevel spdlog.err ;;
                LOG_WARN "main.cpp" 12 [lit "careful"]) world_with_file)
  = outputs world_with_file
  /\ outputs (run (Logger.SetLevel spdlog.err ;;
                   LOG_ERR "main.cpp" 13 [lit "broken"]) world_with_file)
     = map (fun o => o ++ ["E20231224 09:30:45.123456 12345 main.cpp:13] broken"])%list
         (outputs world_with_file).
Proof.
  pose proof (SetLevel_admission world_with_file _ "main.cpp" 12 "careful" eq_refl
                ltac:(discriminate)) as [H1 _].
  pose proof (SetLevel_admission world_with_file _ "main.cpp" 13 "broken" eq_refl
                ltac:(discriminate)) as [_ [H2 _]].
  split.
  - vm_compute in H1. vm_compute. exact H1.
  - vm_compute in H2. vm_compute. exact H2.
Defined.

(** C8, as the code has it: a record with text whose level is below the
    minimum of the active logger is dropped by the logger, so the logger
    and its sinks stay as they were, but only after the clock was read,
    the thread identity hashed and the line rendered and handed to the
    logger. *)
Theorem rejected_record_is_rendered_first (m : LogMessage.t) (w : world)
    (lg : spdlog.logger) :
  logger_ w = Some lg ->
  LogMessage.message_ m <> EmptyString ->
  spdlog.should_log lg (level_of (LogMessage.severity_ m)) = false ->
  let text := LogMessage.formatted_msg m (now w) (thread_hash w) in
  logger_ (final (LogMessage.destroy m w)) = Some lg
  /\ history (final (LogMessage.destroy m w))
     = (history w
        ++ [EvNow; EvThreadHash; EvRender text;
            EvLog (level_of (LogMessage.severity_ m)) text])%list.
Proof.
  intros Hlg Hmsg Hdrop text.
  rewrite (destroy_active _ w lg Hlg Hmsg).
  destruct (LogSeverity_eqb (LogMessage.severity_ m) LOG_LEVEL_FATAL); simpl;
    unfold spdlog.log; rewrite Hdrop; split; reflexivity.
Qed.

Lemma rejected_record_is_rendered_first_witness :
  history (final (LogMessage.destroy (LogMessage.mk LOG_LEVEL_INFO "main.cpp" 7 "quiet")
                    world_errors_only))
  = [EvNow; EvThreadHash;
     EvRender "I20231224 09:30:45.123456 12345 main.cpp:7] quiet";
     EvLog spdlog.info "I20231224 09:30:45.123456 12345 main.cpp:7] quiet"].
Proof.
  apply (rejected_record_is_rendered_first
           (LogMessage.mk LOG_LEVEL_INFO "main.cpp" 7 "quiet") world_errors_only _ eq_refl).
  - discriminate.
  - reflexivity.
Defined.

(** C8, as stated, fails: an INFO record under a logger that admits ERROR
    and above reaches no sink, yet the clock is read, the thread identity
    hashed and the line rendered for it. *)
Lemma rejected_record_pays_for_formatting :
  (exists lg, logger_ world_errors_only = Some lg
     /\ spdlog.should_log lg (level_of LOG_LEVEL_INFO) = false)
  /\ history world_errors_only = []
  /\ outputs (run (LOG_INFO "main.cpp" 7 [lit "quiet"]) world_errors_only)
     = outputs world_errors_only
  /\ history (run (LOG_INFO "main.cpp" 7 [lit "quiet"]) world_errors_only)
     = [EvNow; EvThreadHash;
        EvRender "I20231224 09:30:45.123456 12345 main.cpp:7] quiet";
        EvLog spdlog.info "I20231224 09:30:45.123456 12345 main.cpp:7] quiet"].
Proof.
  repeat split. eexists. split; reflexivity.
Qed.

(** ** Conditional logging *)

(** C6, as the code has it: each of the four conditional macros expands
    to a conditional expression whose second operand is [(void)0] and
    whose third is a [LogMessage]; the expression is ill-formed, so a
    conditional log statement gives no program at all, whatever its
    predicate and whatever is streamed into it, and there is nothing that
    could skip the streamed expressions of a false predicate. *)
Theorem conditional_macros_are_ill_formed (condition : bool) (file : string) (line : Z)
    (args : list (Proc string)) :
  LOG_INFO_IF condition file line args = None
  /\ LOG_WARN_IF condition file line args = None
  /\ LOG_ERR_IF condition file line args = None
  /\ LOG_FATAL_IF condition file line args = None.
Proof.
  repeat split.
Qed.

(** ** The logger life cycle *)

Ltac init_facts :=
  repeat split;
  try reflexivity;
  try (unfold spdlog_registry.registered; simpl registry; assumption);
  try (intro; discriminate).

(** What [Init] does when the warning of a failed file sink, if one is
    needed, has a default logger to go through: the new logger is stored
    in [logger_] in any case; then the call returns, unless a logger of
    the facade's name is registered already. *)
Lemma Init_runs (log_file : string) (max_file_size max_files : N)
    (level : spdlog.level_enum) (w : world) :
  Text.empty log_file = true
  \/ can_create log_file max_file_size max_files w = true
  \/ default_logger w <> None ->
  let lg := fresh_logger log_file max_file_size max_files level
              (can_create log_file max_file_size max_files w) in
  exists w',
    logger_ w' = Some lg
    /\ now w' = now w /\ thread_hash w' = thread_hash w /\ probe w' = probe w
    /\ file_sink_throws w' = file_sink_throws w
    /\ spdlog_registry.registered "snow_logger" w' = true
    /\ (spdlog_registry.registered "snow_logger" w = false ->
        default_logger w' = Some "snow_logger")
    /\ Logger.Init log_file max_file_size max_files level w
       = if spdlog_registry.registered "snow_logger" w
         then Raised "logger with name 'snow_logger' already exists" w'
         else Ret tt w'.
Proof.
  intros Hwarn lg.
  assert (H : exists w',
             Logger.Init log_file max_file_size max_files level w
             = (if spdlog_registry.registered "snow_logger" w
                then Raised "logger with name 'snow_logger' already exists" w'
                else Ret tt w')
             /\ logger_ w' = Some lg
             /\ now w' = now w /\ thread_hash w' = thread_hash w /\ probe w' = probe w
             /\ file_sink_throws w' = file_sink_throws w
             /\ spdlog_registry.registered "snow_logger" w' = true
             /\ (spdlog_registry.registered "snow_logger" w = false ->
                 default_logger w' = Some "snow_logger")).
  { unfold lg, fresh_logger, can_create in *.
    unfold Logger.Init, bind, spdlog_registry.make_rotating_file_sink,
      spdlog_registry.warn, store_logger, spdlog_registry.register_logger,
      spdlog_registry.set_default_logger, ret.
    destruct (Text.empty log_file) eqn:Hpath; cbn -[String.eqb existsb].
    - unfold spdlog_registry.registered. cbn -[String.eqb existsb].
      destruct (existsb (String.eqb "snow_logger") (registry w)) eqn:Hreg;
        eexists; (split; [ reflexivity | ]); init_facts.
    - destruct (file_sink_throws w log_file max_file_size max_files) eqn:Hthrows;
        cbn -[String.eqb existsb].
      + destruct (default_logger w) as [d|] eqn:Hdefault.
        * unfold spdlog_registry.registered. cbn -[String.eqb existsb].
          destruct (existsb (String.eqb "snow_logger") (registry w)) eqn:Hreg;
            eexists; (split; [ reflexivity | ]); init_facts.
        * destruct Hwarn as [H | [H | H]];
            [ discriminate H | discriminate H | now elim H ].
      + unfold spdlog_registry.registered. cbn -[String.eqb existsb].
        destruct (existsb (String.eqb "snow_logger") (registry w)) eqn:Hreg;
          eexists; (split; [ reflexivity | ]); init_facts. }
  destruct H as [w' [H1 [H2 [H3 [H4 [H5 [H6 [H7 H8]]]]]]]].
  exists w'. repeat split; assumption.
Qed.



(** An [Init] over an active logger does not return: the name of the
    facade's logger is taken, [register_logger] throws, and [logger_]
    holds the new logger by then. *)
Lemma second_Init_throws :
  exists w',
    Logger.Init "" 1024 3 spdlog.info world_errors_only
    = Raised "logger with name 'snow_logger' already exists" w'
    /\ (exists lg, logger_ w' = Some lg /\ spdlog.level lg = spdlog.info).
Proof.
  eexists. split; [ vm_compute; reflexivity | ].
  eexists. split; vm_compute; reflexivity.
Qed.


(** ** Strings *)

Lemma append_nil_r (s : string) : s ++ "" = s.
Proof.
  induction s as [|c s IH]; simpl; [ reflexivity | now rewrite IH ].
Qed.

Lemma append_assoc (a b c : string) : (a ++ b) ++ c = a ++ (b ++ c).
Proof.
  induction a as [|x a IH]; simpl; [ reflexivity | now rewrite IH ].
Qed.

Lemma length_append (a b : string) :
  String.length (a ++ b) = (String.length a + String.length b)%nat.
Proof.
  induction a as [|x a IH]; simpl; [ reflexivity | now rewrite IH ].
Qed.

Lemma all_chars_append (p : ascii -> bool) (a b : string) :
  Text.all_chars p (a ++ b) = Text.all_chars p a && Text.all_chars p b.
Proof.
  induction a as [|x a IH]; simpl; [ reflexivity | ].
  now rewrite IH, andb_assoc.
Qed.

Lemma drop_append (a b : string) : Text.drop (String.length a) (a ++ b) = b.
Proof.
  induction a as [|x a IH]; simpl; [ now destruct b | exact IH ].
Qed.

Lemma take_all (n : nat) (s : string) :
  (String.length s <= n)%nat -> Text.take n s = s.
Proof.
  revert n. induction s as [|c s IH]; intros n H.
  - now destruct n.
  - destruct n as [|n]; simpl in *; [ lia | ]. rewrite IH; [ reflexivity | lia ].
Qed.

(** ** The last separator of a path *)

Lemma find_last_of_none (chars : string) (i : nat) (s : string) :
  Text.find_last_of_from chars i s = None
  <-> Text.all_chars (fun c => negb (Text.occurs c chars)) s = true.
Proof.
  revert i. induction s as [|c s IH]; intro i; simpl.
  - split; reflexivity.
  - destruct (Text.find_last_of_from chars (S i) s) as [p|] eqn:Hrest.
    + split; [ discriminate | ]. intro H. apply andb_prop in H. destruct H as [_ H].
      apply (IH (S i)) in H. rewrite Hrest in H. discriminate H.
    + destruct (Text.occurs c chars); simpl.
      * split; discriminate.
      * split; [ intros _; now apply (IH (S i)) | reflexivity ].
Qed.

Lemma find_last_of_some (chars : string) (i : nat) (s : string) (p : nat) :
  Text.find_last_of_from chars i s = Some p ->
  exists pre c suf,
    s = pre ++ String c suf
    /\ Text.occurs c chars = true
    /\ Text.all_chars (fun c => negb (Text.occurs c chars)) suf = true
    /\ p = (i + String.length pre)%nat.
Proof.
  revert i p. induction s as [|a s IH]; intros i p; simpl.
  - discriminate.
  - destruct (Text.find_last_of_from chars (S i) s) as [q|] eqn:Hrest.
    + intro H. injection H as Hqp. subst p.
      destruct (IH (S i) q Hrest) as [pre [c [suf [Hs [Hc [Hsuf Hq]]]]]].
      exists (String a pre), c, suf. simpl. rewrite Hs.
      repeat split; try assumption. lia.
    + destruct (Text.occurs a chars) eqn:Ha; [ | discriminate ].
      intro H. injection H as Hip. subst p.
      exists EmptyString, a, s. simpl.
      repeat split; try assumption.
      * now apply (find_last_of_none chars (S i)).
      * lia.
Qed.

(** The file name is what follows the last separator, and the whole
    path when there is none. *)
Lemma filename_split (file : string) :
  (no_separator file = true /\ LogMessage.filename file = file)
  \/ (exists dir c,
        is_separator c = true
        /\ file = (dir ++ String c "") ++ LogMessage.filename file
        /\ no_separator (LogMessage.filename file) = true).
Proof.
  unfold LogMessage.filename, Text.find_last_of.
  destruct (Text.find_last_of_from "/\" 0 file) as [p|] eqn:Hfind.
  - right. destruct (find_last_of_some _ _ _ _ Hfind) as [pre [c [suf [Hs [Hc [Hsuf Hp]]]]]].
    exists pre, c. subst file p. simpl.
    assert (Hdrop : Text.substr (String.length pre + 1) (pre ++ String c suf) = suf).
    { unfold Text.substr.
      replace (String.length pre + 1)%nat with (String.length (pre ++ String c ""))
        by (rewrite length_append; reflexivity).
      replace (pre ++ String c suf) with ((pre ++ String c "") ++ suf)
        by (rewrite append_assoc; reflexivity).
      apply drop_append. }
    rewrite Hdrop. split; [ exact Hc | ]. split; [ | exact Hsuf ].
    now rewrite append_assoc.
  - left. split; [ | reflexivity ].
    now apply (find_last_of_none "/\" 0).
Qed.

(** ** Decimal numerals and fixed-width fields *)

Lemma pow10_succ (w : nat) : pow10 (S w) = (10 * pow10 w)%N.
Proof.
  unfold pow10. rewrite Nat2N.inj_succ. apply N.pow_succ_r'.
Qed.

Lemma div10_bound (n : N) (w : nat) : (n < pow10 (S w))%N -> (n / 10 < pow10 w)%N.
Proof.
  rewrite pow10_succ. intro H. now apply N.Div0.div_lt_upper_bound.
Qed.

(** The fuel of [N_to_string] is enough. *)
Lemma fuel_suffices (n : N) : (n < pow10 (S (N.to_nat (N.size n))))%N.
Proof.
  rewrite pow10_succ. unfold pow10. rewrite N2Nat.id.
  pose proof (N.size_gt n) as Hlt.
  assert (Hle : (2 ^ N.size n <= 10 ^ N.size n)%N) by (apply N.pow_le_mono_l; lia).
  lia.
Qed.

Lemma mod10_bound (n : N) : (n mod 10 < 10)%N.
Proof.
  apply N.mod_lt. discriminate.
Qed.

Lemma digit_char_is_digit (n : N) : Text.is_digit (Text.digit_char (n mod 10)) = true.
Proof.
  unfold Text.is_digit, Text.digit_char.
  pose proof (mod10_bound n) as H. set (d := (n mod 10)%N) in *. clearbody d.
  rewrite N_ascii_embedding by lia.
  apply andb_true_intro. split; apply N.leb_le; lia.
Qed.

Lemma digit_char_value (n : N) :
  (N_of_ascii (Text.digit_char (n mod 10)) - 48 = n mod 10)%N.
Proof.
  unfold Text.digit_char.
  pose proof (mod10_bound n) as H. set (d := (n mod 10)%N) in *. clearbody d.
  rewrite N_ascii_embedding by lia. lia.
Qed.

Lemma decimal_fuel_digits (f : nat) (n : N) :
  Text.all_chars Text.is_digit (Text.decimal_fuel f n) = true.
Proof.
  revert n. induction f as [|f IH]; intro n; simpl; [ reflexivity | ].
  rewrite all_chars_append. simpl. rewrite digit_char_is_digit.
  destruct (n <? 10)%N; simpl; [ reflexivity | now rewrite IH ].
Qed.

Lemma decimal_fuel_nonempty (f : nat) (n : N) :
  Text.decimal_fuel (S f) n <> EmptyString.
Proof.
  simpl. destruct (if (n <? 10)%N then EmptyString else Text.decimal_fuel f (n / 10)%N);
    discriminate.
Qed.

Lemma N_of_digits_snoc (acc : N) (s : string) (c : ascii) :
  Text.N_of_digits acc (s ++ String c "")
  = (10 * Text.N_of_digits acc s + (N_of_ascii c - 48))%N.
Proof.
  revert acc. induction s as [|a s IH]; intro acc; simpl; [ reflexivity | apply IH ].
Qed.

(** With enough fuel the numeral denotes the number. *)
Lemma decimal_fuel_value (f : nat) (n : N) :
  (n < pow10 f)%N -> Text.N_of_digits 0 (Text.decimal_fuel f n) = n.
Proof.
  revert n. induction f as [|f IH]; intros n Hn.
  - unfold pow10 in Hn. simpl in *. lia.
  - simpl Text.decimal_fuel. rewrite N_of_digits_snoc, digit_char_value.
    destruct (n <? 10)%N eqn:Hsmall.
    + apply N.ltb_lt in Hsmall. simpl Text.N_of_digits.
      rewrite N.mod_small by exact Hsmall. lia.
    + rewrite IH by (now apply div10_bound).
      symmetry. apply N.Div0.div_mod.
Qed.

(** The printer is right: reading the numeral back gives the number. *)
Lemma N_to_string_value (n : N) : Text.N_of_digits 0 (Text.N_to_string n) = n.
Proof.
  apply decimal_fuel_value, fuel_suffices.
Qed.

Lemma replicate_snoc (w : nat) (c : ascii) :
  Text.replicate w c ++ String c "" = String c (Text.replicate w c).
Proof.
  induction w as [|w IH]; simpl; [ reflexivity | now rewrite IH ].
Qed.

Lemma fixed_width_zero (w : nat) : Text.fixed_width w 0 = Text.replicate w "0"%char.
Proof.
  induction w as [|w IH]; [ reflexivity | ].
  simpl Text.fixed_width. change (0 / 10)%N with 0%N. rewrite IH.
  apply replicate_snoc.
Qed.

Lemma fixed_width_length (w : nat) (n : N) : String.length (Text.fixed_width w n) = w.
Proof.
  revert n. induction w as [|w IH]; intro n; simpl; [ reflexivity | ].
  rewrite length_append, IH. simpl. lia.
Qed.

Lemma fixed_width_digits (w : nat) (n : N) :
  Text.all_chars Text.is_digit (Text.fixed_width w n) = true.
Proof.
  revert n. induction w as [|w IH]; intro n; simpl; [ reflexivity | ].
  rewrite all_chars_append, IH. simpl. now rewrite digit_char_is_digit.
Qed.

(** Padding a numeral that fits into [w] columns gives the [w] low-order
    digits of the number. *)
Lemma padded_decimal (f : nat) (n : N) (w : nat) :
  (n < pow10 f)%N -> (n < pow10 w)%N -> (1 <= w)%nat ->
  Text.replicate (w - String.length (Text.decimal_fuel f n)) "0"%char
    ++ Text.decimal_fuel f n
  = Text.fixed_width w n.
Proof.
  revert n w. induction f as [|f IH]; intros n w Hf Hw Hpos.
  - unfold pow10 in Hf. simpl in Hf. assert (n = 0%N) by lia. subst n.
    simpl. rewrite Nat.sub_0_r, append_nil_r. symmetry. apply fixed_width_zero.
  - destruct w as [|w]; [ lia | ].
    simpl Text.decimal_fuel. simpl Text.fixed_width.
    destruct (n <? 10)%N eqn:Hsmall.
    + apply N.ltb_lt in Hsmall. simpl.
      rewrite N.div_small by exact Hsmall. rewrite fixed_width_zero.
      now rewrite Nat.sub_0_r.
    + apply N.ltb_ge in Hsmall.
      assert (Hw1 : (1 <= w)%nat).
      { destruct w as [|w]; [ | lia ].
        unfold pow10 in Hw. simpl in Hw. lia. }
      rewrite length_append. simpl String.length.
      replace (S w - (String.length (Text.decimal_fuel f (n / 10)) + 1))%nat
        with (w - String.length (Text.decimal_fuel f (n / 10)))%nat by lia.
      rewrite <- append_assoc.
      rewrite IH; [ reflexivity | now apply div10_bound | now apply div10_bound | exact Hw1 ].
Qed.

(** [%0<w>d] of a number that fits into [w] digits. *)
Lemma printf_0d_fixed (w : nat) (z : Z) :
  (1 <= w)%nat -> 0 <= z -> (Z.to_N z < pow10 w)%N ->
  Text.printf_0d w z = Text.fixed_width w (Z.to_N z).
Proof.
  intros Hw Hz Hfit. unfold Text.printf_0d.
  assert (Hneg : (z <? 0) = false) by (apply Z.ltb_ge; exact Hz).
  rewrite Hneg.
  assert (Habs : Z.abs_N z = Z.to_N z) by (destruct z; try reflexivity; lia).
  rewrite Habs. unfold Text.N_to_string.
  apply padded_decimal; [ apply fuel_suffices | exact Hfit | exact Hw ].
Qed.

(** ** Matching *)

Lemma matches_alt (a b : Regex.t) (s : string) :
  Regex.matches (Regex.Alt a b) s = Regex.matches a s || Regex.matches b s.
Proof.
  revert a b. induction s as [|c s IH]; intros a b; simpl; [ reflexivity | apply IH ].
Qed.

Lemma matches_seq (a b : Regex.t) (s1 s2 : string) :
  Regex.matches a s1 = true ->
  Regex.matches b s2 = true ->
  Regex.matches (Regex.Seq a b) (s1 ++ s2) = true.
Proof.
  revert a. induction s1 as [|c s1 IH]; intros a Ha Hb.
  - simpl in Ha. simpl append. destruct s2 as [|c s2]; simpl.
    + simpl in Hb. now rewrite Ha, Hb.
    + rewrite Ha, matches_alt. simpl in Hb. rewrite Hb. apply orb_true_r.
  - simpl in Ha. simpl.
    destruct (Regex.nullable a).
    + rewrite matches_alt, (IH _ Ha Hb). reflexivity.
    + exact (IH _ Ha Hb).
Qed.

Lemma matches_seq_eps (a : Regex.t) (s : string) :
  Regex.matches a s = true -> Regex.matches (Regex.Seq a Regex.Eps) s = true.
Proof.
  intro Ha. rewrite <- (append_nil_r s). now apply matches_seq.
Qed.

Lemma matches_class (p : ascii -> bool) (c : ascii) :
  p c = true -> Regex.matches (Regex.Class p) (String c "") = true.
Proof.
  intro H. simpl. now rewrite H.
Qed.

Lemma matches_char (c : ascii) : Regex.matches (Regex.char c) (String c "") = true.
Proof.
  apply matches_class, Ascii.eqb_refl.
Qed.

Lemma matches_star_class (p : ascii -> bool) (s : string) :
  Text.all_chars p s = true ->
  Regex.matches (Regex.Star (Regex.Class p)) s = true.
Proof.
  induction s as [|c s IH]; intro H; [ reflexivity | ].
  simpl in H. apply andb_prop in H. destruct H as [Hc Hs].
  change (String c s) with (String c "" ++ s).
  simpl Regex.matches. rewrite Hc.
  apply (matches_seq Regex.Eps _ "" s); [ reflexivity | now apply IH ].
Qed.

Lemma matches_plus_class (p : ascii -> bool) (s : string) :
  s <> EmptyString ->
  Text.all_chars p s = true ->
  Regex.matches (Regex.plus (Regex.Class p)) s = true.
Proof.
  destruct s as [|c s]; intros Hne H; [ now elim Hne | ].
  simpl in H. apply andb_prop in H. destruct H as [Hc Hs].
  apply (matches_seq _ _ (String c "") s).
  - now apply matches_class.
  - now apply matches_star_class.
Qed.

Lemma matches_times_class (n : nat) (p : ascii -> bool) (s : string) :
  String.length s = n ->
  Text.all_chars p s = true ->
  Regex.matches (Regex.times n (Regex.Class p)) s = true.
Proof.
  revert s. induction n as [|n IH]; intros s Hlen H.
  - destruct s; [ reflexivity | discriminate Hlen ].
  - destruct s as [|c s]; [ discriminate Hlen | ].
    simpl in H. apply andb_prop in H. destruct H as [Hc Hs].
    apply (matches_seq _ _ (String c "") s).
    + now apply matches_class.
    + apply IH; [ now injection Hlen | exact Hs ].
Qed.

Lemma matches_star (r : Regex.t) (s1 s2 : string) :
  Regex.matches r s1 = true ->
  Regex.matches (Regex.Star r) s2 = true ->
  Regex.matches (Regex.Star r) (s1 ++ s2) = true.
Proof.
  intros H1 H2. destruct s1 as [|c s1]; [ exact H2 | ].
  simpl. simpl in H1. now apply matches_seq.
Qed.

Lemma denotes_matches (r : Regex.t) (s : string) :
  Regex.denotes r s -> Regex.matches r s = true.
Proof.
  induction 1.
  - reflexivity.
  - now apply matches_class.
  - now apply matches_seq.
  - rewrite matches_alt, IHdenotes. reflexivity.
  - rewrite matches_alt, IHdenotes. apply orb_true_r.
  - reflexivity.
  - now apply matches_star.
Qed.

Lemma nullable_denotes (r : Regex.t) :
  Regex.nullable r = true -> Regex.denotes r EmptyString.
Proof.
  induction r as [| |p|r1 IH1 r2 IH2|r1 IH1 r2 IH2|r IH]; simpl; intro H.
  - discriminate H.
  - constructor.
  - discriminate H.
  - apply andb_prop in H. destruct H as [H1 H2].
    exact (Regex.denotes_seq r1 r2 "" "" (IH1 H1) (IH2 H2)).
  - apply orb_prop in H. destruct H as [H|H].
    + apply Regex.denotes_alt_l. now apply IH1.
    + apply Regex.denotes_alt_r. now apply IH2.
  - constructor.
Qed.

Lemma deriv_denotes (c : ascii) (r : Regex.t) (s : string) :
  Regex.denotes (Regex.deriv c r) s -> Regex.denotes r (String c s).
Proof.
  revert s. induction r as [| |p|r1 IH1 r2 IH2|r1 IH1 r2 IH2|r IH]; simpl; intros s H.
  - inversion H.
  - inversion H.
  - destruct (p c) eqn:Hp; inversion H; subst. now constructor.
  - assert (Hseq : forall s0, Regex.denotes (Regex.Seq (Regex.deriv c r1) r2) s0 ->
                              Regex.denotes (Regex.Seq r1 r2) (String c s0)).
    { intros s0 H0. inversion H0; subst.
      change (String c (s1 ++ s2)) with (String c s1 ++ s2).
      apply Regex.denotes_seq; [ now apply IH1 | assumption ]. }
    destruct (Regex.nullable r1) eqn:Hn.
    + inversion H; subst.
      * now apply Hseq.
      * change (String c s) with ("" ++ String c s).
        apply Regex.denotes_seq; [ now apply nullable_denotes | now apply IH2 ].
    + now apply Hseq.
  - inversion H; subst.
    + apply Regex.denotes_alt_l. now apply IH1.
    + apply Regex.denotes_alt_r. now apply IH2.
  - inversion H; subst.
    change (String c (s1 ++ s2)) with (String c s1 ++ s2).
    apply Regex.denotes_star_more; [ now apply IH | assumption ].
Qed.

(** The matcher decides the language of the expression. *)
Lemma matches_iff_denotes (r : Regex.t) (s : string) :
  Regex.matches r s = true <-> Regex.denotes r s.
Proof.
  split; [ | apply denotes_matches ].
  revert r. induction s as [|c s IH]; intros r H.
  - now apply nullable_denotes.
  - simpl in H. apply deriv_denotes. now apply IH.
Qed.

Lemma not_matches_not_denotes (r : Regex.t) (s : string) :
  Regex.matches r s = false -> ~ Regex.denotes r s.
Proof.
  intros H Hd. apply denotes_matches in Hd. rewrite H in Hd. discriminate Hd.
Qed.

(** ** The rendered line *)

Lemma valid_clock_bounds (c : clock_reading) :
  valid_clock c = true ->
  let t := local_time c in
  0 <= tm_year t + 1900 <= 9999 /\ 0 <= tm_mon t <= 11 /\ 1 <= tm_mday t <= 31
  /\ 0 <= tm_hour t <= 23 /\ 0 <= tm_min t <= 59 /\ 0 <= tm_sec t <= 60
  /\ 0 <= since_epoch_us c.
Proof.
  unfold valid_clock. intro H.
  repeat (apply andb_prop in H; let H' := fresh "H" in destruct H as [H H']).
  repeat match goal with
         | Hb : (_ <=? _) = true |- _ => apply Z.leb_le in Hb
         end.
  cbv zeta. lia.
Qed.

Lemma level_char_letter (s : LogSeverity) :
  LogMessage.level_char (LogSeverity_value s) = severity_letter s.
Proof.
  destruct s; reflexivity.
Qed.

(** Under a calendar clock the time stamp has its 24 characters and
    nothing is cut off. *)
Lemma time_str_fields (c : clock_reading) :
  valid_clock c = true ->
  let t := local_time c in
  LogMessage.time_str c
  = Text.fixed_width 4 (Z.to_N (tm_year t + 1900))
    ++ Text.fixed_width 2 (Z.to_N (tm_mon t + 1))
    ++ Text.fixed_width 2 (Z.to_N (tm_mday t))
    ++ " "
    ++ Text.fixed_width 2 (Z.to_N (tm_hour t)) ++ ":"
    ++ Text.fixed_width 2 (Z.to_N (tm_min t)) ++ ":"
    ++ Text.fixed_width 2 (Z.to_N (tm_sec t)) ++ "."
    ++ Text.fixed_width 6 (Z.to_N (Z.rem (since_epoch_us c) 1000000)).
Proof.
  intros Hvalid t.
  pose proof (valid_clock_bounds c Hvalid) as Hb. cbv zeta in Hb. fold t in Hb.
  destruct Hb as [Hy [Hmo [Hd [Hh [Hmi [Hs Hus]]]]]].
  pose proof (Z.rem_bound_pos (since_epoch_us c) 1000000 Hus ltac:(lia)) as Hrem.
  unfold LogMessage.time_str. fold t.
  assert (P4 : pow10 4 = 10000%N) by reflexivity.
  assert (P2 : pow10 2 = 100%N) by reflexivity.
  assert (P6 : pow10 6 = 1000000%N) by reflexivity.
  rewrite (printf_0d_fixed 4 (tm_year t + 1900)) by (rewrite ?P4; lia).
  rewrite (printf_0d_fixed 2 (tm_mon t + 1)) by (rewrite ?P2; lia).
  rewrite (printf_0d_fixed 2 (tm_mday t)) by (rewrite ?P2; lia).
  rewrite (printf_0d_fixed 2 (tm_hour t)) by (rewrite ?P2; lia).
  rewrite (printf_0d_fixed 2 (tm_min t)) by (rewrite ?P2; lia).
  rewrite (printf_0d_fixed 2 (tm_sec t)) by (rewrite ?P2; lia).
  rewrite (printf_0d_fixed 6 (Z.rem (since_epoch_us c) 1000000)) by (rewrite ?P6; lia).
  apply take_all.
  repeat rewrite length_append. repeat rewrite fixed_width_length. simpl. lia.
Qed.

Lemma formatted_msg_layout (m : LogMessage.t) (c : clock_reading) (thread : N) :
  valid_clock c = true ->
  LogMessage.formatted_msg m c thread
  = layout (LogMessage.severity_ m) c thread
      (LogMessage.filename (LogMessage.file_ m)) (LogMessage.line_ m)
      (LogMessage.message_ m).
Proof.
  intro Hvalid. unfold LogMessage.formatted_msg, layout.
  rewrite level_char_letter, (time_str_fields c Hvalid). cbv zeta.
  f_equal; repeat rewrite append_assoc; reflexivity.
Qed.

Lemma N_to_string_digits (n : N) :
  Text.N_to_string n <> EmptyString
  /\ Text.all_chars Text.is_digit (Text.N_to_string n) = true.
Proof.
  split; [ apply decimal_fuel_nonempty | apply decimal_fuel_digits ].
Qed.

Lemma is_level_char_letter (s : LogSeverity) : is_level_char (severity_letter s) = true.
Proof.
  destruct s; reflexivity.
Qed.

Ltac match_piece :=
  match goal with
  | |- Regex.matches (Regex.Seq _ _) (String ?c ?rest) = true =>
      apply (matches_seq _ _ (String c "") rest)
  | |- Regex.matches (Regex.Seq _ _) (?a ++ ?b) = true =>
      apply (matches_seq _ _ a b)
  end.

Ltac match_digits :=
  apply matches_times_class;
  [ repeat rewrite length_append; repeat rewrite fixed_width_length; reflexivity
  | repeat rewrite all_chars_append; repeat rewrite fixed_width_digits; reflexivity ].

(** A line of the layout matches the layout's regular expression when
    the base file name is not empty, the line number is not negative and
    the message has no line break. *)
Lemma layout_matches (sev : LogSeverity) (c : clock_reading) (thread : N)
    (base_file : string) (line : Z) (message : string) :
  base_file <> EmptyString ->
  no_separator base_file = true ->
  0 <= line ->
  single_line message = true ->
  Regex.matches layout_regex (layout sev c thread base_file line message) = true.
Proof.
  intros Hbase Hsep Hline Hmsg.
  destruct (N_to_string_digits thread) as [Hth1 Hth2].
  destruct (N_to_string_digits (Z.abs_N line)) as [Hl1 Hl2].
  assert (Hz : Text.Z_to_string line = Text.N_to_string (Z.abs_N line)).
  { unfold Text.Z_to_string.
    assert (Hneg : (line <? 0) = false) by (apply Z.ltb_ge; exact Hline).
    now rewrite Hneg. }
  unfold layout, layout_regex. cbv zeta. cbn [Regex.seq_all]. rewrite Hz.
  set (Y := Text.fixed_width 4 _).
  set (Mo := Text.fixed_width 2 (Z.to_N (tm_mon _ + 1))).
  set (D := Text.fixed_width 2 (Z.to_N (tm_mday _))).
  rewrite <- (append_assoc Mo D), <- (append_assoc Y (Mo ++ D)).
  change ("] " ++ message) with ("]" ++ (" " ++ message)).
  match_piece; [ apply matches_class, is_level_char_letter | ].
  match_piece; [ subst Y Mo D; match_digits | ].
  match_piece; [ apply matches_char | ].
  match_piece; [ match_digits | ].
  match_piece; [ apply matches_char | ].
  match_piece; [ match_digits | ].
  match_piece; [ apply matches_char | ].
  match_piece; [ match_digits | ].
  match_piece; [ apply matches_char | ].
  match_piece; [ match_digits | ].
  match_piece; [ apply matches_char | ].
  match_piece; [ now apply matches_plus_class | ].
  match_piece; [ apply matches_char | ].
  match_piece; [ now apply matches_plus_class | ].
  match_piece; [ apply matches_char | ].
  match_piece; [ now apply matches_plus_class | ].
  match_piece; [ apply matches_char | ].
  match_piece; [ apply matches_char | ].
  apply matches_seq_eps. now apply matches_star_class.
Qed.

(** C1, as the code has it: for a record of any of the four severities
    with text, finalised under an active logger while the clock shows a
    calendar time of the years 0 to 9999 not before the epoch, the line
    that is rendered and handed to the logger is the layout, field by
    field: level character, 4-digit year, 2-digit month and day, a space,
    2-digit hours, minutes and seconds with their separators, the 6-digit
    microseconds, a space, the thread hash, a space, the base file name, a
    colon, the line number, the characters "] ", the message.  The line
    matches the regular expression of the layout when, in addition, the
    base file name is not empty, the line number is not negative and the
    message has no line break. *)
Theorem rendered_line_layout (m : LogMessage.t) (w : world) (lg : spdlog.logger) :
  logger_ w = Some lg ->
  LogMessage.message_ m <> EmptyString ->
  valid_clock (now w) = true ->
  let text :=
    layout (LogMessage.severity_ m) (now w) (thread_hash w)
      (LogMessage.filename (LogMessage.file_ m)) (LogMessage.line_ m)
      (LogMessage.message_ m) in
  history (final (LogMessage.destroy m w))
  = (history w
     ++ [EvNow; EvThreadHash; EvRender text;
         EvLog (level_of (LogMessage.severity_ m)) text])%list
  /\ (LogMessage.filename (LogMessage.file_ m) <> EmptyString ->
      0 <= LogMessage.line_ m ->
      single_line (LogMessage.message_ m) = true ->
      Regex.matches layout_regex text = true /\ Regex.denotes layout_regex text).
Proof.
  intros Hlg Hmsg Hvalid text. split.
  - rewrite (destroy_active _ w lg Hlg Hmsg).
    rewrite (formatted_msg_layout m (now w) (thread_hash w) Hvalid). fold text.
    destruct (LogSeverity_eqb (LogMessage.severity_ m) LOG_LEVEL_FATAL); reflexivity.
  - intros Hbase Hline Hsingle.
    assert (Hm : Regex.matches layout_regex text = true);
      [ | split; [ exact Hm | now apply matches_iff_denotes ] ].
    unfold text.
    apply layout_matches; try assumption.
    destruct (filename_split (LogMessage.file_ m)) as [[Hno Heq] | [dir [c [_ [_ Hno]]]]].
    + now rewrite Heq.
    + exact Hno.
Qed.

Lemma rendered_line_layout_witness :
  history (final (LogMessage.destroy
                    (LogMessage.mk LOG_LEVEL_WARNING "src/io/port.cpp" 88 "retrying")
                    world_errors_only))
  = [EvNow; EvThreadHash;
     EvRender "W20231224 09:30:45.123456 12345 port.cpp:88] retrying";
     EvLog spdlog.warn "W20231224 09:30:45.123456 12345 port.cpp:88] retrying"]
  /\ Regex.denotes layout_regex "W20231224 09:30:45.123456 12345 port.cpp:88] retrying".
Proof.
  destruct (rendered_line_layout
              (LogMessage.mk LOG_LEVEL_WARNING "src/io/port.cpp" 88 "retrying")
              world_errors_only _ eq_refl) as [H1 H2].
  - discriminate.
  - reflexivity.
  - split; [ exact H1 | ]. apply H2; [ discriminate | discriminate | reflexivity ].
Defined.

(** C1, as stated, fails: for a source path that ends in a separator the
    rendered line has no file name between the thread hash and the colon
    and does not match the regular expression; nor does the line of a
    message in two lines, as [std::endl] streamed between two texts
    gives. *)
Lemma line_without_file_name_misses_the_regex :
  (exists lg, logger_ world_with_file = Some lg)
  /\ history (run (LogMessage.destroy (LogMessage.mk LOG_LEVEL_INFO "src/" 42 "x"))
                world_with_file)
     = (history world_with_file
        ++ [EvNow; EvThreadHash;
            EvRender "I20231224 09:30:45.123456 12345 :42] x";
            EvLog spdlog.info "I20231224 09:30:45.123456 12345 :42] x"])%list
  /\ Regex.matches layout_regex "I20231224 09:30:45.123456 12345 :42] x" = false
  /\ ~ Regex.denotes layout_regex "I20231224 09:30:45.123456 12345 :42] x"
  /\ ~ Regex.denotes layout_regex
         (LogMessage.formatted_msg
            (LogMessage.mk LOG_LEVEL_INFO "main.cpp" 42 ("a" ++ String "010"%char "b"))
            (now world_with_file) (thread_hash world_with_file)).
Proof.
  split; [ eexists; reflexivity | ].
  split; [ reflexivity | ]. split; [ reflexivity | ].
  split; apply not_matches_not_denotes; reflexivity.
Qed.

(** ** The file name shown in the line *)

Lemma find_last_of_last (chars : string) (i : nat) (pre suf : string) (c : ascii) :
  Text.occurs c chars = true ->
  Text.all_chars (fun e => negb (Text.occurs e chars)) suf = true ->
  Text.find_last_of_from chars i (pre ++ String c suf) = Some (i + String.length pre)%nat.
Proof.
  intros Hc Hsuf. revert i. induction pre as [|a pre IH]; intro i; simpl.
  - rewrite (proj2 (find_last_of_none chars (S i) suf) Hsuf), Hc. f_equal. lia.
  - rewrite (IH (S i)). f_equal. lia.
Qed.

Lemma filename_of_split (dir base : string) (c : ascii) :
  is_separator c = true ->
  no_separator base = true ->
  LogMessage.filename (dir ++ String c base) = base.
Proof.
  intros Hc Hbase. unfold LogMessage.filename, Text.find_last_of.
  rewrite (find_last_of_last "/\" 0 dir base c Hc Hbase). simpl Nat.add.
  unfold Text.substr.
  replace (String.length dir + 1)%nat with (String.length (dir ++ String c ""))
    by (rewrite length_append; reflexivity).
  replace (dir ++ String c base) with ((dir ++ String c "") ++ base)
    by (rewrite append_assoc; reflexivity).
  apply drop_append.
Qed.

(** C9, as the code has it: the file name shown in the line is what
    follows the last separator of the path, and the path itself when it
    has no separator; for a path that ends in a separator the file name
    shown is empty. *)
Theorem filename_follows_last_separator (file dir : string) :
  ((no_separator file = true /\ LogMessage.filename file = file)
   \/ (exists d c,
         is_separator c = true
         /\ file = (d ++ String c "") ++ LogMessage.filename file
         /\ no_separator (LogMessage.filename file) = true))
  /\ (forall c base,
        is_separator c = true -> no_separator base = true ->
        LogMessage.filename (dir ++ String c base) = base)
  /\ LogMessage.filename (dir ++ "/") = EmptyString
  /\ LogMessage.filename (dir ++ "\") = EmptyString
  /\ (forall sev line msg c thread,
        valid_clock c = true ->
        LogMessage.formatted_msg (LogMessage.mk sev file line msg) c thread
        = layout sev c thread (LogMessage.filename file) line msg).
Proof.
  split; [ apply filename_split | ].
  split; [ intros c base; apply filename_of_split | ].
  split; [ now apply filename_of_split | ].
  split; [ now apply filename_of_split | ].
  intros sev line msg c thread Hvalid.
  exact (formatted_msg_layout (LogMessage.mk sev file line msg) c thread Hvalid).
Qed.

Lemma filename_follows_last_separator_witness :
  LogMessage.filename ("src\io" ++ String "/" "port.cpp") = "port.cpp"
  /\ LogMessage.formatted_msg (LogMessage.mk LOG_LEVEL_INFO "src\io/port.cpp" 88 "retrying")
       sample_clock 12345
     = layout LOG_LEVEL_INFO sample_clock 12345 "port.cpp" 88 "retrying".
Proof.
  split.
  - apply (filename_follows_last_separator "src\io/port.cpp" "src\io"); reflexivity.
  - apply (filename_follows_last_separator "src\io/port.cpp" "src\io"). reflexivity.
Defined.

(** C9, as stated, fails: for a path that ends in a separator the
    computed file name is empty and the line shows the empty name, not
    the original path. *)
Lemma trailing_separator_gives_empty_name :
  LogMessage.filename "src/" = EmptyString
  /\ LogMessage.filename "src/" <> "src/"
  /\ LogMessage.formatted_msg (LogMessage.mk LOG_LEVEL_INFO "src/" 42 "x") sample_clock 12345
     = "I20231224 09:30:45.123456 12345 :42] x".
Proof.
  repeat split. discriminate.
Qed.

(** ** Consecutive log statements *)







(** ** The streamed expressions *)

Lemma stream_lits (texts : list string) (m : LogMessage.t) (w : world) :
  stream (map lit texts) m w
  = Ret (LogMessage.mk (LogMessage.severity_ m) (LogMessage.file_ m) (LogMessage.line_ m)
           (LogMessage.message_ m ++ join texts)) w.
Proof.
  revert m. induction texts as [|t texts IH]; intro m; simpl.
  - rewrite append_nil_r. now destruct m.
  - unfold bind, lit, ret. rewrite IH. simpl. now rewrite append_assoc.
Qed.

Lemma join_empty (texts : list string) :
  forallb Text.empty texts = true -> join texts = EmptyString.
Proof.
  induction texts as [|t texts IH]; simpl; intro H; [ reflexivity | ].
  apply andb_prop in H. destruct H as [Ht Hrest].
  destruct t; [ now apply IH | discriminate Ht ].
Qed.

(** X2: a statement that streams several texts is the statement that
    streams their concatenation; when every streamed text is empty the
    statement leaves the world as it was, so nothing is logged. *)
Theorem streamed_texts_are_concatenated (sev : LogSeverity) (file : string) (line : Z)
    (texts : list string) (w : world) :
  log_statement sev file line (map lit texts) w
  = LogMessage.destroy (LogMessage.mk sev file line (join texts)) w
  /\ (forallb Text.empty texts = true ->
      final (log_statement sev file line (map lit texts) w) = w).
Proof.
  assert (H : log_statement sev file line (map lit texts) w
              = LogMessage.destroy (LogMessage.mk sev file line (join texts)) w).
  { unfold log_statement, bind. rewrite stream_lits. reflexivity. }
  split; [ exact H | ].
  intro Hempty. rewrite H, (join_empty texts Hempty), destroy_empty.
  now destruct (LogSeverity_eqb sev LOG_LEVEL_FATAL).
Qed.

Lemma streamed_texts_are_concatenated_witness :
  final (LOG_WARN "main.cpp" 5 [lit ""; lit ""] world_with_file) = world_with_file.
Proof.
  apply (streamed_texts_are_concatenated LOG_LEVEL_WARNING "main.cpp" 5 [""; ""]).
  reflexivity.
Defined.

Lemma destroy_keeps_probe (m : LogMessage.t) (w : world) :
  probe (final (LogMessage.destroy m w)) = probe w.
Proof.
  destruct (logger_ w) as [lg|] eqn:Hlg.
  - destruct (LogMessage.message_ m) as [|c rest] eqn:Hmsg.
    + destruct m as [sev file line msg]. simpl in Hmsg. subst msg.
      rewrite destroy_empty. now destruct (LogSeverity_eqb sev LOG_LEVEL_FATAL).
    + rewrite (destroy_active m w lg Hlg) by (rewrite Hmsg; discriminate).
      now destruct (LogSeverity_eqb (LogMessage.severity_ m) LOG_LEVEL_FATAL).
  - rewrite (destroy_uninitialized m w Hlg).
    now destruct (LogSeverity_eqb (LogMessage.severity_ m) LOG_LEVEL_FATAL).
Qed.

Lemma stream_probing (texts : list string) (m : LogMessage.t) (w : world) :
  stream (map probing texts) m w
  = Ret (LogMessage.mk (LogMessage.severity_ m) (LogMessage.file_ m) (LogMessage.line_ m)
           (LogMessage.message_ m ++ join texts))
      (set_probe (probe w + List.length texts)%nat w).
Proof.
  revert m w. induction texts as [|t texts IH]; intros m w; simpl.
  - rewrite append_nil_r, Nat.add_0_r. destruct m, w. reflexivity.
  - unfold bind, probing at 1. rewrite IH. simpl. rewrite append_assoc.
    unfold set_probe. simpl. do 2 f_equal. lia.
Qed.

(** X3: an unconditional log statement evaluates every streamed
    expression, whatever the logger: with no logger installed, with a
    minimum that rejects the record, and for every severity, each
    expression with a side effect in the caller has run once when the
    statement ends. *)
Theorem streamed_expressions_always_run (sev : LogSeverity) (file : string) (line : Z)
    (texts : list string) (w : world) :
  probe (final (log_statement sev file line (map probing texts) w))
  = (probe w + List.length texts)%nat.
Proof.
  unfold log_statement, bind. rewrite stream_probing.
  rewrite destroy_keeps_probe. reflexivity.
Qed.

(** ** After a FATAL statement *)




(** ** Severities and thresholds *)

Lemma level_of_monotone (s s' : LogSeverity) :
  LogSeverity_value s <= LogSeverity_value s' ->
  spdlog.level_value (level_of s) <= spdlog.level_value (level_of s').
Proof.
  destruct s, s'; cbv; intro H; try discriminate; try (now elim H).
Qed.

(** X5: the levels of the four severities keep their order, so admission
    is closed upwards: when the active logger admits a severity it admits
    every higher one, and a minimum that rejects a severity rejects every
    lower one. *)
Theorem admission_is_upward_closed (lg : spdlog.logger) (s s' : LogSeverity) :
  LogSeverity_value s <= LogSeverity_value s' ->
  (spdlog.should_log lg (level_of s) = true ->
   spdlog.should_log lg (level_of s') = true)
  /\ (spdlog.should_log lg (level_of s') = false ->
      spdlog.should_log lg (level_of s) = false).
Proof.
  intro Hle. apply level_of_monotone in Hle. unfold spdlog.should_log. split.
  - intro H. apply Z.leb_le in H. apply Z.leb_le. lia.
  - intro H. apply Z.leb_gt in H. apply Z.leb_gt. lia.
Qed.

Lemma admission_is_upward_closed_witness :
  spdlog.should_log (spdlog.mk_logger "snow_logger" [] spdlog.warn spdlog.warn)
    (level_of LOG_LEVEL_FATAL) = true.
Proof.
  apply (admission_is_upward_closed _ LOG_LEVEL_WARNING LOG_LEVEL_FATAL).
  - discriminate.
  - reflexivity.
Defined.

(** X6: with the flush threshold [Init] sets, an admitted record of a
    severity above INFO leaves every sink flushed: nothing is pending in
    any sink, and the lines that were pending before it have been made
    durable ahead of its own line. *)
Theorem flush_follows_severity (m : LogMessage.t) (w : world) (lg : spdlog.logger) :
  logger_ w = Some lg ->
  spdlog.flush_level lg = spdlog.warn ->
  admitted lg m = true ->
  LogMessage.severity_ m <> LOG_LEVEL_INFO ->
  let line := LogMessage.formatted_msg m (now w) (thread_hash w) in
  exists lg',
    logger_ (final (LogMessage.destroy m w)) = Some lg'
    /\ spdlog.sinks lg'
       = map (fun s =>
                spdlog.mk_sink (spdlog.sink_kind_of s) (spdlog.sink_pattern s)
                  [] (spdlog.sink_durable s ++ spdlog.sink_pending s ++ [line]))
           (spdlog.sinks lg)
    /\ sinks_flushed (final (LogMessage.destroy m w)) = true.
Proof.
  intros Hlg Hflush Hadm Hsev line. unfold admitted in Hadm.
  apply andb_prop in Hadm. destruct Hadm as [Hmsg Hlog].
  assert (Hne : LogMessage.message_ m <> EmptyString).
  { intro H. rewrite H in Hmsg. discriminate Hmsg. }
  assert (Hsinks : spdlog.sinks (spdlog.log (level_of (LogMessage.severity_ m)) line lg)
                   = map (fun s =>
                            spdlog.mk_sink (spdlog.sink_kind_of s) (spdlog.sink_pattern s)
                              [] (spdlog.sink_durable s ++ spdlog.sink_pending s ++ [line]))
                       (spdlog.sinks lg)).
  { unfold spdlog.log. rewrite Hlog. unfold spdlog.should_flush. rewrite Hflush.
    destruct (LogMessage.severity_ m); simpl; rewrite ?map_map;
      try reflexivity. now elim Hsev. }
  assert (Hfinal : final (LogMessage.destroy m w)
                   = mk_world (Some (spdlog.log (level_of (LogMessage.severity_ m)) line lg))
                       (now w) (thread_hash w) (file_sink_throws w) (probe w)
                       (history w ++ [EvNow; EvThreadHash; EvRender line;
                                      EvLog (level_of (LogMessage.severity_ m)) line])
                       (registry w) (default_logger w)).
  { rewrite (destroy_active m w lg Hlg Hne). fold line.
    now destruct (LogSeverity_eqb (LogMessage.severity_ m) LOG_LEVEL_FATAL). }
  exists (spdlog.log (level_of (LogMessage.severity_ m)) line lg).
  rewrite Hfinal. split; [ reflexivity | ]. split; [ exact Hsinks | ].
  unfold sinks_flushed. simpl. rewrite Hsinks. clear Hsinks.
  generalize (spdlog.sinks lg). intro ss.
  induction ss as [|s ss IH]; simpl; [ reflexivity | exact IH ].
Qed.

Lemma flush_follows_severity_witness :
  exists lg',
    logger_ (final (LogMessage.destroy (LogMessage.mk LOG_LEVEL_ERROR "main.cpp" 12 "late")
                      world_with_file)) = Some lg'
    /\ map spdlog.sink_pending (spdlog.sinks lg') = [[]; []]
    /\ map spdlog.sink_durable (spdlog.sinks lg')
       = [["I20231224 09:30:45.123456 12345 main.cpp:10] tick";
           "E20231224 09:30:45.123456 12345 main.cpp:12] late"];
          ["I20231224 09:30:45.123456 12345 main.cpp:10] tick";
           "E20231224 09:30:45.123456 12345 main.cpp:12] late"]].
Proof.
  destruct (flush_follows_severity
              (LogMessage.mk LOG_LEVEL_ERROR "main.cpp" 12 "late") world_with_file _
              eq_refl eq_refl eq_refl ltac:(discriminate)) as [lg' [H1 [H2 _]]].
  exists lg'. split; [ exact H1 | ]. rewrite H2. split; vm_compute; reflexivity.
Defined.

(** ** What a line tells *)

(** X7: the line begins with the level character of its severity, and a
    line determines the severity of its record: records of different
    severities never render to the same line, whatever their clocks,
    threads, places and messages. *)
Theorem line_determines_severity (m m' : LogMessage.t) (c c' : clock_reading)
    (thread thread' : N) :
  LogMessage.formatted_msg m c thread = LogMessage.formatted_msg m' c' thread' ->
  LogMessage.severity_ m = LogMessage.severity_ m'.
Proof.
  unfold LogMessage.formatted_msg. intro H. injection H as Hc _.
  destruct (LogMessage.severity_ m), (LogMessage.severity_ m');
    try reflexivity; discriminate Hc.
Qed.

Lemma line_determines_severity_witness :
  LogMessage.severity_ (LogMessage.mk LOG_LEVEL_ERROR "a.cpp" 1 "x")
  = LogMessage.severity_ (LogMessage.mk LOG_LEVEL_ERROR "a.cpp" 1 "x").
Proof.
  apply (line_determines_severity _ _ sample_clock sample_clock 7 7). reflexivity.
Defined.

Lemma append_cancel_l (a b c : string) : a ++ b = a ++ c -> b = c.
Proof.
  induction a as [|x a IH]; simpl; intro H; [ exact H | ].
  injection H as H. now apply IH.
Qed.

(** X8: the message is the tail of the line, unchanged and in full: two
    records of the same severity and place, rendered at the same clock
    reading on the same thread, give the same line only when their
    messages are equal, and the line is longer than the message by the
    length of the header alone. *)
Theorem message_is_kept_verbatim (sev : LogSeverity) (file : string) (line : Z)
    (msg msg' : string) (c : clock_reading) (thread : N) :
  LogMessage.formatted_msg (LogMessage.mk sev file line msg) c thread
  = LogMessage.formatted_msg (LogMessage.mk sev file line EmptyString) c thread ++ msg
  /\ String.length (LogMessage.formatted_msg (LogMessage.mk sev file line msg) c thread)
     = (String.length
          (LogMessage.formatted_msg (LogMessage.mk sev file line EmptyString) c thread)
        + String.length msg)%nat
  /\ (LogMessage.formatted_msg (LogMessage.mk sev file line msg) c thread
      = LogMessage.formatted_msg (LogMessage.mk sev file line msg') c thread ->
      msg = msg').
Proof.
  assert (H : forall t,
             LogMessage.formatted_msg (LogMessage.mk sev file line t) c thread
             = LogMessage.formatted_msg (LogMessage.mk sev file line EmptyString) c thread
               ++ t).
  { intro t. unfold LogMessage.formatted_msg.
    cbn [LogMessage.severity_ LogMessage.file_ LogMessage.line_ LogMessage.message_].
    match goal with
    | |- _ = String ?a ?x ++ t => change (String a x ++ t) with (String a (x ++ t))
    end.
    f_equal. repeat rewrite append_assoc. reflexivity. }
  split; [ apply H | ]. split.
  - rewrite (H msg). apply length_append.
  - rewrite (H msg), (H msg'). apply append_cancel_l.
Qed.

Lemma message_is_kept_verbatim_witness :
  LogMessage.formatted_msg (LogMessage.mk LOG_LEVEL_ERROR "io.cpp" 3 "disk full")
    sample_clock 7
  = "E20231224 09:30:45.123456 7 io.cpp:3] " ++ "disk full"
  /\ "disk full" = "disk full".
Proof.
  split.
  - exact (proj1 (message_is_kept_verbatim LOG_LEVEL_ERROR "io.cpp" 3 "disk full"
                    "disk full" sample_clock 7)).
  - apply (message_is_kept_verbatim LOG_LEVEL_ERROR "io.cpp" 3 "disk full" "disk full"
             sample_clock 7).
    reflexivity.
Defined.

(** ** The time stamp and the file name *)

Lemma length_take (n : nat) (s : string) : (String.length (Text.take n s) <= n)%nat.
Proof.
  revert s. induction n as [|n IH]; intro s; [ simpl; lia | ].
  destruct s as [|c s]; simpl; [ lia | ]. specialize (IH s). lia.
Qed.

(** X9: the time stamp never exceeds the 31 characters its buffer holds,
    whatever the clock returns, and for a calendar time of the years 0 to
    9999 it has exactly 24 characters, so that nothing is cut off and the
    thread hash starts at the same column in every line. *)
Theorem time_stamp_width (c : clock_reading) :
  (String.length (LogMessage.time_str c) <= 31)%nat
  /\ (valid_clock c = true -> String.length (LogMessage.time_str c) = 24%nat).
Proof.
  split.
  - unfold LogMessage.time_str. apply length_take.
  - intro Hvalid. rewrite (time_str_fields c Hvalid). cbv zeta.
    repeat rewrite length_append. repeat rewrite fixed_width_length. reflexivity.
Qed.

Lemma time_stamp_width_witness :
  String.length (LogMessage.time_str sample_clock) = 24%nat.
Proof.
  apply (time_stamp_width sample_clock). reflexivity.
Defined.

Lemma filename_without_separator (s : string) :
  no_separator s = true -> LogMessage.filename s = s.
Proof.
  intro H. unfold LogMessage.filename, Text.find_last_of.
  now rewrite (proj2 (find_last_of_none "/\" 0 s) H).
Qed.

(** X10: the file name shown is an end piece of the path and has no
    separator in it; taking the file name of a file name changes
    nothing. *)
Theorem filename_is_idempotent (file : string) :
  LogMessage.filename (LogMessage.filename file) = LogMessage.filename file
  /\ no_separator (LogMessage.filename file) = true
  /\ (exists dir, file = dir ++ LogMessage.filename file)
  /\ (String.length (LogMessage.filename file) <= String.length file)%nat.
Proof.
  assert (Hno : no_separator (LogMessage.filename file) = true).
  { destruct (filename_split file) as [[H Heq] | [d [c [_ [_ H]]]]];
      [ now rewrite Heq | exact H ]. }
  assert (Hdir : exists dir, file = dir ++ LogMessage.filename file).
  { destruct (filename_split file) as [[_ Heq] | [d [c [_ [Heq _]]]]].
    - exists EmptyString. now rewrite Heq.
    - exists (d ++ String c ""). exact Heq. }
  split; [ now apply filename_without_separator | ].
  split; [ exact Hno | ]. split; [ exact Hdir | ].
  destruct Hdir as [dir Hdir]. rewrite Hdir at 2. rewrite length_append. lia.
Qed.

(** ** The life cycle, step by step *)

Lemma Shutdown_active (w : world) (lg : spdlog.logger) :
  logger_ w = Some lg ->
  exists w',
    Logger.Shutdown w = Ret tt w'
    /\ logger_ w' = None
    /\ spdlog_registry.registered "snow_logger" w' = false
    /\ default_logger w' = None
    /\ file_sink_throws w' = file_sink_throws w.
Proof.
  intro Hlg. unfold Logger.Shutdown. rewrite Hlg.
  eexists. split; [ reflexivity | ]. repeat split.
Qed.

(** The warning of a failed file sink goes through the default logger of
    spdlog; where there is none, [Init] runs into undefined behaviour
    before it has built its logger. *)
Lemma Init_warns_through_default_logger (log_file : string)
    (max_file_size max_files : N) (level : spdlog.level_enum) (w : world) :
  Text.empty log_file = false ->
  can_create log_file max_file_size max_files w = false ->
  default_logger w = None ->
  Logger.Init log_file max_file_size max_files level w = Undefined w.
Proof.
  unfold can_create. intros Hpath Hcreate Hdefault.
  apply negb_false_iff in Hcreate.
  unfold Logger.Init, bind, spdlog_registry.make_rotating_file_sink,
    spdlog_registry.warn.
  rewrite Hpath. cbn [negb]. rewrite Hcreate, Hdefault. reflexivity.
Qed.

(** X11: a second [Init] without a [Shutdown] in between does not
    return: the first has registered the logger of the facade with
    spdlog, so [register_logger] throws in the second, after [logger_]
    was given the new logger.  With a [Shutdown] in between, which drops
    the registered loggers and the default logger, the second [Init]
    returns when its file sink can be created or it has no path; when its
    file sink cannot be created, its warning finds no default logger and
    the behaviour is undefined. *)
Theorem second_Init_needs_Shutdown (f1 f2 : string) (s1 n1 s2 n2 : N)
    (l1 l2 : spdlog.level_enum) (w : world) :
  spdlog_registry.registered "snow_logger" w = false ->
  Text.empty f1 = true \/ can_create f1 s1 n1 w = true \/ default_logger w <> None ->
  (exists w',
     (Logger.Init f1 s1 n1 l1 ;; Logger.Init f2 s2 n2 l2) w
     = Raised "logger with name 'snow_logger' already exists" w'
     /\ logger_ w' = Some (fresh_logger f2 s2 n2 l2 (can_create f2 s2 n2 w)))
  /\ (Text.empty f2 = true \/ can_create f2 s2 n2 w = true ->
      returned ((Logger.Init f1 s1 n1 l1 ;; Logger.Shutdown ;; Logger.Init f2 s2 n2 l2) w)
      = true)
  /\ (Text.empty f2 = false -> can_create f2 s2 n2 w = false ->
      exists w',
        (Logger.Init f1 s1 n1 l1 ;; Logger.Shutdown ;; Logger.Init f2 s2 n2 l2) w
        = Undefined w').
Proof.
  intros Hfree Hwarn.
  destruct (Init_runs f1 s1 n1 l1 w Hwarn)
    as [w1 [Hlg1 [_ [_ [_ [Hfs1 [Hreg1 [Hdef1 Hrun1]]]]]]]].
  rewrite Hfree in Hrun1. specialize (Hdef1 Hfree).
  assert (Hcan1 : can_create f2 s2 n2 w1 = can_create f2 s2 n2 w)
    by (unfold can_create; now rewrite Hfs1).
  split.
  - assert (Hwarn2 : Text.empty f2 = true \/ can_create f2 s2 n2 w1 = true
                     \/ default_logger w1 <> None).
    { right. right. rewrite Hdef1. discriminate. }
    destruct (Init_runs f2 s2 n2 l2 w1 Hwarn2)
      as [w2 [Hlg2 [_ [_ [_ [_ [_ [_ Hrun2]]]]]]]].
    rewrite Hreg1 in Hrun2.
    exists w2. unfold bind. rewrite Hrun1, Hrun2. split; [ reflexivity | ].
    now rewrite Hlg2, Hcan1.
  - destruct (Shutdown_active w1 _ Hlg1) as [w2 [Hshut [_ [Hreg2 [Hdef2 Hfs2]]]]].
    assert (Hcan2 : can_create f2 s2 n2 w2 = can_create f2 s2 n2 w)
      by (unfold can_create; now rewrite Hfs2, Hfs1).
    split.
    + intro Hfile.
      assert (Hwarn3 : Text.empty f2 = true \/ can_create f2 s2 n2 w2 = true
                       \/ default_logger w2 <> None).
      { destruct Hfile as [H | H]; [ now left | right; left ].
        now rewrite Hcan2. }
      destruct (Init_runs f2 s2 n2 l2 w2 Hwarn3)
        as [w3 [_ [_ [_ [_ [_ [_ [_ Hrun3]]]]]]]].
      rewrite Hreg2 in Hrun3.
      unfold bind. now rewrite Hrun1, Hshut, Hrun3.
    + intros Hpath Hcreate. exists w2.
      unfold bind. rewrite Hrun1, Hshut.
      apply Init_warns_through_default_logger;
        [ exact Hpath | now rewrite Hcan2 | exact Hdef2 ].
Qed.

Lemma second_Init_needs_Shutdown_witness :
  returned ((Logger.Init "" 1024 3 spdlog.info ;; Logger.Init "app.log" 1024 3 spdlog.info)
              world0) = false
  /\ returned ((Logger.Init "" 1024 3 spdlog.info ;; Logger.Shutdown ;;
                Logger.Init "app.log" 1024 3 spdlog.info) world0) = true.
Proof.
  destruct (second_Init_needs_Shutdown "" "app.log" 1024 3 1024 3 spdlog.info spdlog.info
              world0 eq_refl (or_introl eq_refl)) as [[w' [H _]] [H2 _]].
  split.
  - rewrite H. reflexivity.
  - apply H2. right. reflexivity.
Defined.

(** X12: [SetLevel] changes the minimum of the active logger and nothing
    else: the sinks, what they hold and the flush threshold stay; of two
    calls in a row the second decides; without a logger the call does
    nothing. *)
Theorem SetLevel_last_call_decides (a b : spdlog.level_enum) (w : world) :
  (Logger.SetLevel a ;; Logger.SetLevel b) w = Logger.SetLevel b w
  /\ (forall lg, logger_ w = Some lg ->
        exists lg',
          logger_ (final (Logger.SetLevel a w)) = Some lg'
          /\ spdlog.level lg' = a
          /\ spdlog.sinks lg' = spdlog.sinks lg
          /\ spdlog.flush_level lg' = spdlog.flush_level lg)
  /\ (logger_ w = None -> Logger.SetLevel a w = Ret tt w).
Proof.
  unfold bind, Logger.SetLevel.
  destruct (logger_ w) as [lg|] eqn:Hlg; simpl.
  - repeat split.
    + intros lg0 H. injection H as <-. eexists. repeat split.
    + discriminate.
  - rewrite Hlg. repeat split. discriminate.
Qed.

Lemma SetLevel_last_call_decides_witness :
  exists lg',
    logger_ (final (Logger.SetLevel spdlog.err world_with_file)) = Some lg'
    /\ spdlog.level lg' = spdlog.err
    /\ map spdlog.sink_pending (spdlog.sinks lg')
       = [["I20231224 09:30:45.123456 12345 main.cpp:10] tick"];
          ["I20231224 09:30:45.123456 12345 main.cpp:10] tick"]].
Proof.
  destruct (SetLevel_last_call_decides spdlog.err spdlog.info world_with_file)
    as [_ [H _]].
  destruct (H _ eq_refl) as [lg' [H1 [H2 [H3 _]]]].
  exists lg'. split; [ exact H1 | ]. split; [ exact H2 | ]. rewrite H3. reflexivity.
Defined.

Lemma sink_flush_output (s : spdlog.sink) :
  spdlog.sink_output (spdlog.sink_flush s) = spdlog.sink_output s.
Proof.
  unfold spdlog.sink_output, spdlog.sink_flush. simpl. apply app_nil_r.
Qed.

Lemma sink_flush_twice (s : spdlog.sink) :
  spdlog.sink_flush (spdlog.sink_flush s) = spdlog.sink_flush s.
Proof.
  unfold spdlog.sink_flush. simpl. now rewrite app_nil_r.
Qed.

(** X13: [Logger::Flush] loses and reorders nothing: every sink has
    accepted the same lines after it as before, none of them is pending
    any more, a second flush changes nothing, and without a logger the
    call does nothing. *)
Theorem Flush_keeps_every_line (w : world) :
  outputs (final (Logger.Flush w)) = outputs w
  /\ sinks_flushed (final (Logger.Flush w)) = true
  /\ (Logger.Flush ;; Logger.Flush) w = Logger.Flush w
  /\ (logger_ w = None -> Logger.Flush w = Ret tt w).
Proof.
  unfold bind, Logger.Flush, outputs, sinks_flushed.
  destruct (logger_ w) as [lg|] eqn:Hlg; simpl.
  - split; [ | split; [ | split; [ | discriminate ] ] ].
    + rewrite map_map. apply map_ext. intro s. apply sink_flush_output.
    + induction (spdlog.sinks lg) as [|s ss IH]; simpl; [ reflexivity | exact IH ].
    + unfold spdlog.flush, set_logger. simpl. rewrite map_map.
      rewrite (map_ext _ _ sink_flush_twice). reflexivity.
  - rewrite Hlg. repeat split.
Qed.

Lemma Flush_keeps_every_line_witness :
  Logger.Flush world0 = Ret tt world0.
Proof.
  apply (Flush_keeps_every_line world0). reflexivity.
Defined.

(** ** A statement that logs while it is built *)



(** ** The example server *)

Lemma destroy_nonfatal_returns (m : LogMessage.t) (w : world) :
  is_fatal m = false ->
  LogMessage.destroy m w = Ret tt (final (LogMessage.destroy m w)).
Proof.
  unfold is_fatal. intro Hf.
  destruct (logger_ w) as [lg|] eqn:Hlg.
  - destruct (LogMessage.message_ m) as [|c rest] eqn:Hmsg.
    + destruct m as [sev file line msg]. simpl in *. subst msg.
      now rewrite destroy_empty, Hf.
    + rewrite (destroy_active m w lg Hlg) by (rewrite Hmsg; discriminate).
      now rewrite Hf.
  - now rewrite (destroy_uninitialized m w Hlg), Hf.
Qed.

(** A statement of literal texts that is not FATAL returns, in the world
    its record leaves. *)
Lemma statement_returns (sev : LogSeverity) (file : string) (line : Z)
    (texts : list string) (w : world) :
  sev <> LOG_LEVEL_FATAL ->
  log_statement sev file line (map lit texts) w
  = Ret tt (final (LogMessage.destroy (LogMessage.mk sev file line (join texts)) w)).
Proof.
  intro Hsev. unfold log_statement, bind. rewrite stream_lits. simpl.
  apply destroy_nonfatal_returns. unfold is_fatal. simpl.
  destruct sev; try reflexivity. now elim Hsev.
Qed.

Lemma finalize_two (a b : LogMessage.t) (w : world) :
  is_fatal a = false ->
  is_fatal b = false ->
  final (finalize_all [a; b] w)
  = final (LogMessage.destroy b (final (LogMessage.destroy a w))).
Proof.
  intros Ha Hb. unfold finalize_all, bind.
  rewrite (destroy_nonfatal_returns a w Ha). cbv beta iota.
  destruct (LogMessage.destroy b _) as [[] w'|w'|what w'|w']; reflexivity.
Qed.

Ltac rewrite_statement lemma :=
  let H := fresh "Hstmt" in
  pose proof lemma as H; cbn [map] in H; rewrite H; clear H.

Section RobotServerFacts.

Variable double : Type.
Variable lib : RobotServer.library double.

(** X16: a robot state written with [to_json] is read back by
    [from_json] as the same state, so [to_json] loses nothing: two
    states with the same JSON are equal. *)
Theorem RobotState_round_trip (s s' : RobotServer.RobotState double) :
  RobotServer.from_json lib (RobotServer.to_json s) = Some s
  /\ (RobotServer.to_json s = RobotServer.to_json s' -> s = s').
Proof.
  assert (H : forall r, RobotServer.from_json lib (RobotServer.to_json r) = Some r).
  { intros [[px py pz] [vx vy vz] t]. reflexivity. }
  split; [ apply H | ].
  intro Heq. pose proof (H s) as Hs. rewrite Heq, H in Hs. now injection Hs.
Qed.

Lemma info_statement (file : string) (line : Z) (texts : list string) (w : world) :
  LOG_INFO file line (map lit texts) w
  = Ret tt (final (LogMessage.destroy
                     (LogMessage.mk LOG_LEVEL_INFO file line (join texts)) w)).
Proof.
  apply statement_returns. discriminate.
Qed.

Lemma err_statement (file : string) (line : Z) (texts : list string) (w : world) :
  LOG_ERR file line (map lit texts) w
  = Ret tt (final (LogMessage.destroy
                     (LogMessage.mk LOG_LEVEL_ERROR file line (join texts)) w)).
Proof.
  apply statement_returns. discriminate.
Qed.

(** X17: a [move] command with a target of three numbers puts the
    position at the target and leaves velocity and time stamp alone; the
    reply is the ok object with the status untouched, and the handler has
    logged the command and then the new position, in this order. *)
Theorem move_sets_the_position (file : string)
    (state : RobotServer.RobotState double) (request : string)
    (res : RobotServer.Response) (w : world)
    (j : RobotServer.json double) (target : RobotServer.Vector3d double) :
  RobotServer.parse lib request = RobotServer.Val j ->
  RobotServer.command_of lib j = RobotServer.Val "move" ->
  RobotServer.target_of lib j = RobotServer.Val target ->
  RobotServer.post_command lib file state request res w
  = Ret (RobotServer.mk_RobotState target (RobotServer.velocity state)
           (RobotServer.timestamp state),
         RobotServer.mk_Response (RobotServer.status res)
           (RobotServer.dump lib RobotServer.reply_ok) "application/json")
      (final (finalize_all [RobotServer.received file "move";
                            RobotServer.moved_to lib file target] w)).
Proof.
  intros Hparse Hcmd Htarget.
  unfold RobotServer.post_command, RobotServer.try_command, bind.
  rewrite Hparse. cbv beta iota delta [RobotServer.exn_bind].
  rewrite Hcmd. cbv beta iota delta [RobotServer.exn_bind].
  rewrite_statement (info_statement file 64 ["Received command: "; "move"] w).
  rewrite String.eqb_refl, Htarget. cbv beta iota.
  rewrite_statement (info_statement file 70
             ["Move to position: ("; RobotServer.show_double lib (RobotServer.x target); ", ";
              RobotServer.show_double lib (RobotServer.y target); ", ";
              RobotServer.show_double lib (RobotServer.z target); ")"]).
  rewrite (finalize_two (RobotServer.received file "move")
             (RobotServer.moved_to lib file target) w eq_refl eq_refl).
  reflexivity.
Qed.

Lemma dumpable_reply_error (what : string) :
  RobotServer.dumpable (@RobotServer.reply_error double what) = RobotServer.valid_utf8 what.
Proof.
  unfold RobotServer.reply_error. cbn [RobotServer.dumpable forallb].
  change (RobotServer.valid_utf8 "error") with true.
  now rewrite !andb_true_r.
Qed.

(** The [catch] block answers with status 400 when the text of the
    exception is well-formed UTF-8, and is left by the exception of
    [dump] when it is not; the ERROR record is logged in both cases. *)
Lemma catch_block_outcome (file : string) (state : RobotServer.RobotState double)
    (what : string) (res : RobotServer.Response) (w : world) :
  RobotServer.catch_block lib file state what res w
  = if RobotServer.valid_utf8 what
    then Ret (state,
              RobotServer.mk_Response 400
                (RobotServer.dump lib (RobotServer.reply_error what)) "application/json")
           (final (LogMessage.destroy (RobotServer.failed file what) w))
    else Raised (RobotServer.dump_error lib (RobotServer.reply_error what))
           (final (LogMessage.destroy (RobotServer.failed file what) w)).
Proof.
  unfold RobotServer.catch_block, bind.
  rewrite_statement (err_statement file 78 ["Failed to process command: "; what] w).
  simpl join. rewrite append_nil_r.
  unfold RobotServer.dump_checked. rewrite dumpable_reply_error.
  destruct (RobotServer.valid_utf8 what); reflexivity.
Qed.

(** X18: a request that cannot be parsed, or whose command is missing or
    is no string, is answered with status 400 and the text of the
    exception when that text is well-formed UTF-8; the state stays as it
    was and the handler has logged one ERROR record with that text. *)
Theorem bad_request_is_refused (file : string)
    (state : RobotServer.RobotState double) (request : string)
    (res : RobotServer.Response) (w : world) (what : string) :
  RobotServer.exn_bind (RobotServer.parse lib request) (RobotServer.command_of lib)
  = RobotServer.Throw what ->
  RobotServer.valid_utf8 what = true ->
  RobotServer.post_command lib file state request res w
  = Ret (state,
         RobotServer.mk_Response 400
           (RobotServer.dump lib (RobotServer.reply_error what)) "application/json")
      (final (LogMessage.destroy (RobotServer.failed file what) w)).
Proof.
  intros Hfail Hvalid.
  assert (Hcatch : RobotServer.post_command lib file state request res w
                   = RobotServer.catch_block lib file state what res w).
  { unfold RobotServer.post_command, RobotServer.try_command, bind.
    destruct (RobotServer.parse lib request) as [j|e] eqn:Hparse;
      cbv beta iota delta [RobotServer.exn_bind] in Hfail.
    - cbv beta iota delta [RobotServer.exn_bind]. rewrite Hfail. reflexivity.
    - injection Hfail as ->. reflexivity. }
  rewrite Hcatch, catch_block_outcome, Hvalid. reflexivity.
Qed.

(** X19: whatever the request, the command handler never ends the
    process.  When it returns, velocity and time stamp are as they were
    and the answer is JSON: the ok object with the status as it was, or
    status 400 with an error object and the state as it was.  It fails to
    return only by the exception of [dump], when the text of the error it
    wants to report is not well-formed UTF-8. *)
Theorem command_handler_outcome (file : string)
    (state : RobotServer.RobotState double) (request : string)
    (res : RobotServer.Response) (w : world) :
  match RobotServer.post_command lib file state request res w with
  | Ret (state', res') _ =>
      RobotServer.velocity state' = RobotServer.velocity state
      /\ RobotServer.timestamp state' = RobotServer.timestamp state
      /\ RobotServer.content_type res' = "application/json"
      /\ ((RobotServer.status res' = RobotServer.status res
           /\ RobotServer.body res' = RobotServer.dump lib RobotServer.reply_ok)
          \/ (RobotServer.status res' = 400
              /\ state' = state
              /\ exists what,
                   RobotServer.body res'
                   = RobotServer.dump lib (RobotServer.reply_error what)))
  | Raised what _ =>
      exists e,
        RobotServer.valid_utf8 e = false
        /\ what = RobotServer.dump_error lib (RobotServer.reply_error e)
  | Abort _ => False
  | Undefined _ => False
  end.
Proof.
  assert (Hcatch : forall e w0,
             match RobotServer.catch_block lib file state e res w0 with
             | Ret (state', res') _ =>
                 RobotServer.velocity state' = RobotServer.velocity state
                 /\ RobotServer.timestamp state' = RobotServer.timestamp state
                 /\ RobotServer.content_type res' = "application/json"
                 /\ ((RobotServer.status res' = RobotServer.status res
                      /\ RobotServer.body res' = RobotServer.dump lib RobotServer.reply_ok)
                     \/ (RobotServer.status res' = 400
                         /\ state' = state
                         /\ exists what,
                              RobotServer.body res'
                              = RobotServer.dump lib (RobotServer.reply_error what)))
             | Raised what _ =>
                 exists e0,
                   RobotServer.valid_utf8 e0 = false
                   /\ what = RobotServer.dump_error lib (RobotServer.reply_error e0)
             | Abort _ => False
             | Undefined _ => False
             end).
  { intros e w0. rewrite catch_block_outcome.
    destruct (RobotServer.valid_utf8 e) eqn:Hvalid.
    - simpl. repeat split. right. repeat split. now exists e.
    - exists e. split; [ exact Hvalid | reflexivity ]. }
  unfold RobotServer.post_command, RobotServer.try_command, bind.
  destruct (RobotServer.parse lib request) as [j|e];
    cbv beta iota delta [RobotServer.exn_bind].
  - destruct (RobotServer.command_of lib j) as [command|e];
      cbv beta iota delta [RobotServer.exn_bind].
    + rewrite_statement (info_statement file 64 ["Received command: "; command] w).
      destruct (String.eqb command "move").
      * destruct (RobotServer.target_of lib j) as [target|e].
        -- rewrite_statement (info_statement file 70
                      ["Move to position: (";
                       RobotServer.show_double lib (RobotServer.x target); ", ";
                       RobotServer.show_double lib (RobotServer.y target); ", ";
                       RobotServer.show_double lib (RobotServer.z target); ")"]).
           unfold ret. simpl. repeat split. left. split; reflexivity.
        -- unfold ret. apply Hcatch.
      * unfold ret. simpl. repeat split. left. split; reflexivity.
    + unfold ret. apply Hcatch.
  - unfold ret. apply Hcatch.
Qed.

End RobotServerFacts.

Lemma RobotState_round_trip_witness :
  RobotServer.sample_state
  = RobotServer.mk_RobotState (RobotServer.mk_Vector3d 0 0 0)
      (RobotServer.mk_Vector3d 0 0 0) 0.
Proof.
  apply (RobotState_round_trip Z RobotServer.sample_library). reflexivity.
Defined.

Lemma move_sets_the_position_witness :
  exists w',
    RobotServer.post_command RobotServer.sample_library "example_usage.cpp"
      RobotServer.sample_state "move to 1 2 3" RobotServer.sample_response
      world_errors_only
    = Ret (RobotServer.mk_RobotState (RobotServer.mk_Vector3d 1 2 3)
             (RobotServer.mk_Vector3d 0 0 0) 0,
           RobotServer.mk_Response 200 "ok" "application/json") w'.
Proof.
  eexists.
  apply (move_sets_the_position Z RobotServer.sample_library "example_usage.cpp"
           RobotServer.sample_state "move to 1 2 3" RobotServer.sample_response
           world_errors_only
           (RobotServer.Jobject
              [("command", RobotServer.Jstring "move");
               ("target", RobotServer.Jarray [RobotServer.Jinteger 1; RobotServer.Jinteger 2;
                                              RobotServer.Jinteger 3])])
           (RobotServer.mk_Vector3d 1 2 3));
    reflexivity.
Defined.

Lemma bad_request_is_refused_witness :
  exists w',
    RobotServer.post_command RobotServer.sample_library "example_usage.cpp"
      RobotServer.sample_state "{" RobotServer.sample_response world_errors_only
    = Ret (RobotServer.sample_state,
           RobotServer.mk_Response 400 "parse error; last read: '{'" "application/json") w'
    /\ outputs w'
       = [["E20231224 09:30:45.123456 12345 example_usage.cpp:78] Failed to process command: parse error; last read: '{'"]].
Proof.
  eexists. split.
  - apply (bad_request_is_refused Z RobotServer.sample_library "example_usage.cpp"
             RobotServer.sample_state "{" RobotServer.sample_response world_errors_only
             "parse error; last read: '{'");
      reflexivity.
  - vm_compute. reflexivity.
Defined.

(** A request body that is no UTF-8 comes back in the text of the parse
    error; the handler logs the ERROR record and is then left by the
    exception of [dump], with neither status nor body set. *)
Example bad_bytes_leave_by_exception :
  exists w',
    RobotServer.post_command RobotServer.sample_library "example_usage.cpp"
      RobotServer.sample_state (String (ascii_of_N 255) EmptyString)
      RobotServer.sample_response world_errors_only
    = Raised "invalid UTF-8 byte" w'
    /\ List.length (history w') = 4%nat.
Proof.
  eexists. split; vm_compute; reflexivity.
Qed.
